(** * Happy Hotels: the booking-draft reconciliation and confirmation protocol

    A shallow embedding of the chat route of the web application (the
    route handler [POST] with its helpers [getMissingFields],
    [buildMissingMessage] and [extractJson]) and of the create endpoint of
    the booking API ([bookingCreateSchema], [computeArrivalDate], the
    error middleware), followed by the properties of the draft validator,
    of the confirmation gate and of the turn controller. The completion
    endpoint and the three exports of the record-store client
    ([createBooking], [updateBooking], [getBooking]) are the collaborators
    of a turn: each is a function of a world that resolves or rejects.

    A second part embeds the other components: the handlers of the
    booking API over a persistence layer that is a parameter ([Api]), the
    reading of a response by the record-store client ([Client]), the
    tool handler of the MCP server ([Mcp]), the earlier version of the
    chat route ([Earlier]) and the confirmation notice of the page
    ([Page]). A request of the API is taken after routing, by its route
    and its identifier; the listing endpoint, which coerces the strings
    of a query, is not embedded.

    Conventions of the embedding.
    - A JavaScript string is a [string] whose characters are read as code
      units in the Latin-1 range; [trim] and [toLowerCase] act on that
      range.
    - A JSON number is a rational ([Q]); JSON has neither NaN nor
      infinities.
    - A JavaScript object used as a record ([Record<string, unknown>]) is
      a finite map [gmap string JValue]; the order of the keys is not
      modelled.
    - Values are taken at their declared TypeScript types: the request
      body, the reply parsed by [extractJson] and what the record-store
      client resolves to are the records their annotations say they are.
    - [JSON.parse] and [JSON.stringify] are not modelled: a text that the
      source parses is represented by the value it parses to, or by a
      marker that it does not parse. *)

From Stdlib Require Import QArith Ascii String.
From stdpp Require Import gmap strings list fin_maps pretty.

Set Warnings "-register-all".
Local Open Scope string_scope.
Local Open Scope list_scope.

(** ** JavaScript values and strings *)

Module Js.

(** The values that [JSON.parse] produces. *)
Inductive JValue : Type :=
  | JNull
  | JBool (b : bool)
  | JNum (n : Q)
  | JStr (s : string)
  | JArr (items : list JValue)
  | JObj (props : gmap string JValue).

(** The results of [typeof] on such values. *)
Inductive JsType : Type := TyString | TyNumber | TyBoolean | TyObject.

#[global] Instance JsType_eq_dec : EqDecision JsType.
Proof. solve_decision. Defined.

Definition typeof (v : JValue) : JsType :=
  match v with
  | JNull => TyObject
  | JBool _ => TyBoolean
  | JNum _ => TyNumber
  | JStr _ => TyString
  | JArr _ => TyObject
  | JObj _ => TyObject
  end.

(** What the engine supplies: the decimal rendering of a number and the
    source text of a built-in function, both used by template
    literals. *)
Class JsRuntime : Type := {
  Number_toString : Q → string;
  Function_toString : string → string
}.

(** ToBoolean. *)
Definition truthy (v : JValue) : bool :=
  match v with
  | JNull => false
  | JBool b => b
  | JNum n => negb (Qeq_bool n 0)
  | JStr s => negb (String.eqb s "")
  | JArr _ => true
  | JObj _ => true
  end.

(** [Array.prototype.join]. *)
Fixpoint join (sep : string) (parts : list string) : string :=
  match parts with
  | [] => ""
  | [p] => p
  | p :: rest => p +:+ sep +:+ join sep rest
  end.

(** ToString, as a template literal applies it. *)
Fixpoint ToString `{JsRuntime} (v : JValue) : string :=
  match v with
  | JNull => "null"
  | JBool true => "true"
  | JBool false => "false"
  | JNum n => Number_toString n
  | JStr s => s
  | JArr items =>
      join "," (map (fun item => match item with
                                 | JNull => ""
                                 | _ => ToString item
                                 end) items)
  | JObj _ => "[object Object]"
  end.

(** The white space that [trim] removes, within the Latin-1 range. *)
Definition is_white_space (c : ascii) : bool :=
  let n := nat_of_ascii c in
  ((9 <=? n)%nat && (n <=? 13)%nat) || (n =? 32)%nat || (n =? 160)%nat.

Fixpoint trimStart (s : string) : string :=
  match s with
  | EmptyString => EmptyString
  | String c rest => if is_white_space c then trimStart rest else s
  end.

Fixpoint trimEnd (s : string) : string :=
  match s with
  | EmptyString => EmptyString
  | String c rest =>
      match trimEnd rest with
      | EmptyString => if is_white_space c then EmptyString else String c EmptyString
      | kept => String c kept
      end
  end.

Definition trim (s : string) : string := trimEnd (trimStart s).

Definition lower_char (c : ascii) : ascii :=
  let n := nat_of_ascii c in
  if ((65 <=? n)%nat && (n <=? 90)%nat)
     || ((192 <=? n)%nat && (n <=? 222)%nat && negb (n =? 215)%nat)
  then ascii_of_nat (n + 32)
  else c.

Fixpoint toLowerCase (s : string) : string :=
  match s with
  | EmptyString => EmptyString
  | String c rest => String (lower_char c) (toLowerCase rest)
  end.

(** [String.prototype.includes]. *)
Fixpoint includes (s needle : string) : bool :=
  String.prefix needle s
  || match s with
     | EmptyString => false
     | String _ rest => includes rest needle
     end.

(** [Set.prototype.has] and [Array.prototype.includes], on strings. *)
Definition Set_has (s : gset string) (x : string) : bool := bool_decide (x ∈ s).
Definition Array_includes (l : list string) (x : string) : bool := bool_decide (x ∈ l).
#[global] Arguments Set_has : simpl never.
#[global] Arguments Array_includes : simpl never.

(** The names that every plain object inherits from [Object.prototype]:
    reading one of them from an object literal that does not define it
    does not give [undefined]. *)
Definition Object_prototype_functions : list string :=
  [ "constructor"; "hasOwnProperty"; "isPrototypeOf"; "propertyIsEnumerable";
    "toLocaleString"; "toString"; "valueOf"; "__defineGetter__";
    "__defineSetter__"; "__lookupGetter__"; "__lookupSetter__" ].

(** The text of an inherited property inside a template literal, if the
    name is inherited. *)
Definition inherited_text `{JsRuntime} (name : string) : option string :=
  if Array_includes Object_prototype_functions name
  then Some (Function_toString name)
  else if String.eqb name "__proto__" then Some "[object Object]"
  else None.

(** A thrown value, as a [catch] clause sees it. *)
Inductive Thrown : Type :=
  | JsError (message : string)
  | NotAnError.

End Js.

Import Js.

(** A booking draft, a persisted booking, a patch: [Record<string, unknown>]. *)
Abbreviation Draft := (gmap string JValue).

(** ** The field catalog *)

Definition REQUIRED_FIELDS : list string :=
  [ "hotel";
    "lead_time";
    "arrival_date_year";
    "arrival_date_month";
    "arrival_date_week_number";
    "arrival_date_day_of_month";
    "stays_in_weekend_nights";
    "stays_in_week_nights";
    "adults";
    "children";
    "babies";
    "meal";
    "country";
    "market_segment";
    "is_repeated_guest";
    "reserved_room_type";
    "customer_type";
    "adr";
    "required_car_parking_spaces";
    "total_of_special_requests";
    "reservation_status";
    "reservation_status_date" ].

Definition MONTH_NAMES : list string :=
  [ "january"; "february"; "march"; "april"; "may"; "june"; "july";
    "august"; "september"; "october"; "november"; "december" ].

Definition NUMBER_FIELDS : gset string :=
  list_to_set
    [ "lead_time";
      "arrival_date_year";
      "arrival_date_week_number";
      "arrival_date_day_of_month";
      "stays_in_weekend_nights";
      "stays_in_week_nights";
      "adults";
      "children";
      "babies";
      "adr";
      "required_car_parking_spaces";
      "total_of_special_requests" ].

Definition BOOLEAN_FIELDS : gset string := list_to_set [ "is_repeated_guest" ].

Definition FIELD_LABELS : gmap string string :=
  list_to_map
    [ ("hotel", "hotel (City Hotel or Resort Hotel)");
      ("lead_time", "lead time (days before arrival)");
      ("arrival_date_year", "arrival year (YYYY)");
      ("arrival_date_month", "arrival month (full name, e.g. January)");
      ("arrival_date_week_number", "arrival week number (1-53)");
      ("arrival_date_day_of_month", "arrival day of month (1-31)");
      ("stays_in_weekend_nights", "weekend nights");
      ("stays_in_week_nights", "week nights");
      ("adults", "number of adults");
      ("children", "number of children");
      ("babies", "number of babies");
      ("meal", "meal plan (BB, HB, FB, SC, or empty)");
      ("country", "country code (2-3 letters)");
      ("market_segment", "market segment (Corporate, Direct, Groups, Online TA)");
      ("is_repeated_guest", "repeat guest (true/false)");
      ("reserved_room_type", "room type (A-H)");
      ("customer_type", "customer type (Transient, Contract, Group, Other)");
      ("adr", "average daily rate (ADR)");
      ("required_car_parking_spaces", "required parking spaces");
      ("total_of_special_requests", "total special requests");
      ("reservation_status", "reservation status (Checked-In, Canceled, No-Show)");
      ("reservation_status_date", "reservation status date (YYYY-MM-DD)") ].

(** ** The draft validator *)

(** The callback that [getMissingFields] passes to [filter]; [data[field]]
    is a lookup of an own property, no required field being a name that
    objects inherit (see [required_fields_not_inherited]). *)
Definition field_is_missing (data : Draft) (field : string) : bool :=
  match data !! field with
  (* value === undefined || value === null *)
  | None => true
  | Some JNull => true
  | Some value =>
      (* typeof value === "string" && value.trim() === "" *)
      if match value with
         | JStr s => String.eqb (trim s) ""
         | _ => false
         end
      then true
      (* NUMBER_FIELDS.has(field) && typeof value !== "number" *)
      else if Set_has NUMBER_FIELDS field
              && negb (bool_decide (typeof value = TyNumber))
      then true
      (* BOOLEAN_FIELDS.has(field) && typeof value !== "boolean" *)
      else if Set_has BOOLEAN_FIELDS field
              && negb (bool_decide (typeof value = TyBoolean))
      then true
      else
        (* field === "arrival_date_month" && typeof value === "string" *)
        match value with
        | JStr s =>
            if String.eqb field "arrival_date_month"
            then
              let normalized := toLowerCase (trim s) in
              if negb (Array_includes MONTH_NAMES normalized) then true else false
            else false
        | _ => false
        end
  end.

Definition getMissingFields (draft : option Draft) : list string :=
  let data := default ∅ draft in
  List.filter (field_is_missing data) REQUIRED_FIELDS.

(** ** The prompt for the missing fields *)

Section Messages.
Context `{JsRuntime}.

(** [FIELD_LABELS[field] ?? field] inside the template of a line. *)
Definition label_text (field : string) : string :=
  match FIELD_LABELS !! field with
  | Some label => label
  | None =>
      match inherited_text field with
      | Some text => text
      | None => field
      end
  end.

(** The binding of [prefix] in [buildMissingMessage]. *)
Definition prompt_prefix (booking : option Draft) : string :=
  match booking ≫= (fun b => b !! "hotel") with
  | Some hotel =>
      if truthy hotel
      then "I can start a " +:+ ToString hotel +:+ " booking."
      else "I can start your booking."
  | None => "I can start your booking."
  end.

Definition buildMissingMessage (missingFields : list string)
    (booking : option Draft) : string :=
  let prefix := prompt_prefix booking in
  let lines := map (fun field => "- " +:+ label_text field) missingFields in
  prefix +:+ " To complete it, please provide:" +:+ String "010" (join (String "010" "") lines).

End Messages.

(** ** The data of a turn *)

Inductive Role : Type := user | assistant.

Record ChatMessage : Type := {
  role : Role;
  content : string
}.

Record ToolTrace : Type := {
  name : string;
  payload : JValue;
  result : option Draft;
  error : option string
}.

(** The body of the request: the message history and the current draft
    ([None] for [null] and for an absent key). *)
Record RequestBody : Type := {
  messages : list ChatMessage;
  body_booking : option Draft
}.

(** The body of the JSON response of the route. *)
Record Response : Type := {
  message : string;
  booking : option Draft;
  toolTrace : list ToolTrace
}.

(** What [extractJson] returns. *)
Record ParsedReply : Type := {
  parsed_message : option string;
  parsed_draft : option Draft;
  parsed_missing_fields : option (list string);
  parsed_ready_to_confirm : option bool
}.

(** The text content of a completion, by what [JSON.parse] makes of it. *)
Inductive ModelContent : Type :=
  | NotJson (text : string)
  | JsonReply (reply : ParsedReply).

(** The [arguments] text of a tool call, by what [JSON.parse] makes of
    [arguments || "{}"]: a syntax error, or a record. *)
Inductive ToolArguments : Type :=
  | ArgumentsMalformed (syntax_error : Thrown)
  | ArgumentsObject (args : Draft).

Record ToolCall : Type := {
  id : string;
  function_name : string;
  function_arguments : ToolArguments
}.

(** [completion.choices[0].message]. *)
Record Completion : Type := {
  tool_calls : list ToolCall;
  message_content : option ModelContent
}.

(** A message of the conversation sent to the model. The system prompt is
    kept by the draft that [buildSystemPrompt] prints in it, a tool
    message by the record it serialises. *)
Inductive ConversationMessage : Type :=
  | SystemPrompt (current_draft : Draft)
  | Chat (m : ChatMessage)
  | ToolResult (tool_call_id : string) (tool_content : Draft).

(** A call of the record-store client, with its arguments as passed. *)
Inductive StoreCall : Type :=
  | CreateBooking (payload : option JValue)
  | UpdateBooking (id : option JValue) (patch : option JValue)
  | GetBooking (id : option JValue).

Definition is_mutation (c : StoreCall) : bool :=
  match c with
  | CreateBooking _ | UpdateBooking _ _ => true
  | GetBooking _ => false
  end.

(** ** Effects: the collaborators of a turn *)

Section Effects.
Context {W : Type}.

(** The external collaborators, over a world [W] that they may change:
    the completion endpoint and the three exports of the record-store
    client. Each either resolves or rejects. *)
Record Collaborators : Type := {
  chat_completions_create : list ConversationMessage → W → (Thrown + Completion) * W;
  createBooking : option JValue → W → (Thrown + Draft) * W;
  updateBooking : option JValue → option JValue → W → (Thrown + Draft) * W;
  getBooking : option JValue → W → (Thrown + Draft) * W
}.

(** The state threaded through a turn: the world, and the record-store
    calls issued so far, oldest first. *)
Record TurnState : Type := {
  world : W;
  issued : list StoreCall
}.

Inductive Outcome (A : Type) : Type :=
  | Returned (a : A)
  | Escaped (e : Thrown).
#[global] Arguments Returned {A} a.
#[global] Arguments Escaped {A} e.

Definition Turn (A : Type) : Type := TurnState → Outcome A * TurnState.

Definition ret {A} (a : A) : Turn A := fun st => (Returned a, st).

Definition throw {A} (e : Thrown) : Turn A := fun st => (Escaped e, st).

Definition bind {A B} (m : Turn A) (k : A → Turn B) : Turn B :=
  fun st =>
    match m st with
    | (Returned a, st') => k a st'
    | (Escaped e, st') => (Escaped e, st')
    end.

(** [try { m } catch (error) { ... }], with the caught value handed to
    the continuation. *)
Definition try_catch {A} (m : Turn A) : Turn (Thrown + A) :=
  fun st =>
    match m st with
    | (Returned a, st') => (Returned (inr a), st')
    | (Escaped e, st') => (Returned (inl e), st')
    end.

(** An awaited call of a collaborator. *)
Definition await {A} (f : W → (Thrown + A) * W) : Turn A :=
  fun st =>
    match f (world st) with
    | (inr a, w') => (Returned a, {| world := w'; issued := issued st |})
    | (inl e, w') => (Escaped e, {| world := w'; issued := issued st |})
    end.

(** An awaited call of the record store: the call is issued, then it
    resolves or rejects. *)
Definition store_call (c : StoreCall) (f : W → (Thrown + Draft) * W) : Turn Draft :=
  fun st =>
    await f {| world := world st; issued := issued st ++ [c] |}.

End Effects.

Arguments Collaborators W : clear implicits.
Arguments TurnState W : clear implicits.
Arguments Turn W A : clear implicits.

#[global] Instance Turn_ret {W} : MRet (Turn W) := fun A a => ret a.
#[global] Instance Turn_bind {W} : MBind (Turn W) := fun A B k m => bind m k.

(** ** The chat route *)

Definition extractJson (content : ModelContent) : ParsedReply :=
  match content with
  | JsonReply reply => reply
  | NotJson text =>
      {| parsed_message := Some text;
         parsed_draft := None;
         parsed_missing_fields := None;
         parsed_ready_to_confirm := None |}
  end.

(** [body.messages.at(-1)?.content ?? ""]. *)
Definition latestUser (body : RequestBody) : string :=
  match last (messages body) with
  | Some m => content m
  | None => ""
  end.

Definition confirmed (body : RequestBody) : bool :=
  includes (toLowerCase (latestUser body)) "confirm".

(** [{ ...(booking ?? {}), ...draft }]: the keys of [draft] win. *)
Definition merge_draft (booking : option Draft) (draft : Draft) : Draft :=
  draft ∪ default ∅ booking.

(** [error instanceof Error ? error.message : "Unknown error"]. *)
Definition error_message (e : Thrown) : string :=
  match e with
  | JsError message => message
  | NotAnError => "Unknown error"
  end.

(** The mutable variables of [POST] that the loop updates. *)
Record Locals : Type := {
  l_booking : option Draft;
  l_conversation : list ConversationMessage;
  l_toolTrace : list ToolTrace
}.

Definition is_string (v : option JValue) : bool :=
  match v with
  | Some (JStr _) => true
  | _ => false
  end.

Section Route.
Context {W : Type} (io : Collaborators W) `{JsRuntime}.

(** The branch taken when the turn is confirmed and the draft is
    complete. What the record store resolves to is a record, so the test
    [result && typeof result === "object"] holds and [booking] becomes
    the result. *)
Definition finalize (booking : Draft) : Turn W Response :=
  attempt ← try_catch
    (match booking !! "id" with
     | Some (JStr id) =>
         let patch := delete "id" booking in
         result ← store_call (UpdateBooking (Some (JStr id)) (Some (JObj patch)))
                    (updateBooking io (Some (JStr id)) (Some (JObj patch)));
         mret (result,
               {| name := "update_booking";
                  payload := JObj (<["id" := JStr id]> {["patch" := JObj patch]});
                  result := Some result;
                  error := None |})
     | _ =>
         result ← store_call (CreateBooking (Some (JObj booking)))
                    (createBooking io (Some (JObj booking)));
         mret (result,
               {| name := "create_booking";
                  payload := JObj {["payload" := JObj booking]};
                  result := Some result;
                  error := None |})
     end);
  match attempt with
  | inr (result, entry) =>
      mret {| message := "Your booking has been confirmed.";
              booking := Some result;
              toolTrace := [entry] |}
  | inl error =>
      mret {| message := "I couldn't finalize the booking. Please try again.";
              booking := Some booking;
              toolTrace :=
                [ {| name := if is_string (booking !! "id")
                             then "update_booking" else "create_booking";
                     payload := JObj booking;
                     result := None;
                     error := Some (error_message error) |} ] |}
  end.

(** The record-store call that a tool call stands for; [None] is the
    [undefined] that [result] keeps for any other tool name. *)
Definition dispatch (toolCall : ToolCall) (args : Draft) : Turn W (option Draft) :=
  if String.eqb (function_name toolCall) "create_booking" then
    result ← store_call (CreateBooking (args !! "payload"))
               (createBooking io (args !! "payload"));
    mret (Some result)
  else if String.eqb (function_name toolCall) "update_booking" then
    result ← store_call (UpdateBooking (args !! "id") (args !! "patch"))
               (updateBooking io (args !! "id") (args !! "patch"));
    mret (Some result)
  else if String.eqb (function_name toolCall) "get_booking" then
    result ← store_call (GetBooking (args !! "id")) (getBooking io (args !! "id"));
    mret (Some result)
  else mret None.

Definition names_mutation (toolCall : ToolCall) : bool :=
  Array_includes ["create_booking"; "update_booking"] (function_name toolCall).

Definition parse_arguments (toolCall : ToolCall) : Turn W Draft :=
  match function_arguments toolCall with
  | ArgumentsObject args => mret args
  | ArgumentsMalformed syntax_error => throw syntax_error
  end.

(** What follows the call inside [try], and the [catch] clause: the
    trace entry, the tool message of the conversation and the new value of
    [booking]. *)
Definition record_attempt (toolCall : ToolCall) (args : Draft) (vars : Locals)
    (attempt : Thrown + option Draft) : Locals :=
  match attempt with
  | inr result =>
      {| l_booking := match result with
                      | Some record => Some record
                      | None => l_booking vars
                      end;
         l_conversation :=
           l_conversation vars ++ [ToolResult (id toolCall) (default ∅ result)];
         l_toolTrace :=
           l_toolTrace vars ++
             [ {| name := function_name toolCall;
                  payload := JObj args;
                  result := result;
                  error := None |} ] |}
  | inl error =>
      {| l_booking := l_booking vars;
         l_conversation := l_conversation vars;
         l_toolTrace :=
           l_toolTrace vars ++
             [ {| name := function_name toolCall;
                  payload := JObj args;
                  result := None;
                  error := Some (error_message error) |} ] |}
  end.

(** The reply of the gate on the tool calls. *)
Definition say_confirm (vars : Locals) : Response :=
  {| message := "I have the booking summary ready. Please say confirm to proceed.";
     booking := l_booking vars;
     toolTrace := l_toolTrace vars |}.

(** The loop over the tool calls of one completion: [inl] is an early
    [return] of the route, [inr] the variables after the last call. *)
Fixpoint run_tool_calls (confirmed : bool) (calls : list ToolCall) (vars : Locals)
    : Turn W (Response + Locals) :=
  match calls with
  | [] => mret (inr vars)
  | toolCall :: rest =>
      args ← parse_arguments toolCall;
      if negb confirmed && names_mutation toolCall then
        mret (inl (say_confirm vars))
      else
        attempt ← try_catch (dispatch toolCall args);
        run_tool_calls confirmed rest (record_attempt toolCall args vars attempt)
  end.

(** The reply of a completion that carries no tool call. *)
Definition informational_reply (choice : Completion) (vars : Locals) : Response :=
  let content := default (NotJson "") (message_content choice) in
  let parsed := extractJson content in
  let booking :=
    match parsed_draft parsed with
    | Some draft => Some (merge_draft (l_booking vars) draft)
    | None => l_booking vars
    end in
  let missingFields :=
    match parsed_missing_fields parsed with
    | Some (field :: fields) => field :: fields
    | _ => getMissingFields booking
    end in
  {| message := if (0 <? length missingFields)%nat
                then buildMissingMessage missingFields booking
                else default "" (parsed_message parsed);
     booking := booking;
     toolTrace := l_toolTrace vars |}.

(** [for (let i = 0; i < 2; i += 1)], with the iterations left to run. *)
Fixpoint rounds (left : nat) (confirmed : bool) (vars : Locals) : Turn W Response :=
  match left with
  | O =>
      mret {| message := "Let's continue the booking details.";
              booking := l_booking vars;
              toolTrace := l_toolTrace vars |}
  | S left' =>
      choice ← await (chat_completions_create io (l_conversation vars));
      match tool_calls choice with
      | _ :: _ =>
          after ← run_tool_calls confirmed (tool_calls choice) vars;
          match after with
          | inl response => mret response
          | inr vars' => rounds left' confirmed vars'
          end
      | [] => mret (informational_reply choice vars)
      end
  end.

Definition POST (body : RequestBody) : Turn W Response :=
  let confirmed := confirmed body in
  let baseMessages :=
    SystemPrompt (default ∅ (body_booking body)) :: map Chat (messages body) in
  let vars := {| l_booking := body_booking body;
                 l_conversation := baseMessages;
                 l_toolTrace := [] |} in
  let missingBefore := getMissingFields (body_booking body) in
  match body_booking body with
  | Some booking =>
      if confirmed && (length missingBefore =? 0)%nat
      then finalize booking
      else rounds 2 confirmed vars
  | None => rounds 2 confirmed vars
  end.

End Route.

(** ** The booking API: validation and creation *)

Module Zod.

Inductive NumberCheck : Type :=
  | int
  | nonnegative
  | min (bound : Q)
  | max (bound : Q).

Inductive StringCheck : Type :=
  | min_length (n : nat)
  | max_length (n : nat)
  | regex (matches : string → bool).

Inductive Schema : Type :=
  | enum (options : list string)
  | number (checks : list NumberCheck)
  | string_ (checks : list StringCheck)
  | boolean
  | nullable (inner : Schema)
  | optional (inner : Schema).

Definition number_check (n : Q) (c : NumberCheck) : bool :=
  match c with
  | int => Pos.eqb (Qden (Qred n)) 1
  | nonnegative => Qle_bool 0 n
  | min bound => Qle_bool bound n
  | max bound => Qle_bool n bound
  end.

Definition string_check (s : string) (c : StringCheck) : bool :=
  match c with
  | min_length n => (n <=? String.length s)%nat
  | max_length n => (String.length s <=? n)%nat
  | regex matches => matches s
  end.

(** Whether the schema accepts the value of a key; [None] is an absent
    key. *)
Fixpoint accepts (schema : Schema) (value : option JValue) : bool :=
  match schema, value with
  | optional _, None => true
  | optional inner, Some _ => accepts inner value
  | nullable _, Some JNull => true
  | nullable inner, _ => accepts inner value
  | enum options, Some (JStr s) => Array_includes options s
  | number checks, Some (JNum n) => forallb (number_check n) checks
  | string_ checks, Some (JStr s) => forallb (string_check s) checks
  | boolean, Some (JBool _) => true
  | _, _ => false
  end.

(** [z.object(shape).parse(body)]: every key of the shape is accepted,
    and the keys outside the shape are stripped. *)
Definition parse_object (shape : list (string * Schema)) (body : Draft)
    : option Draft :=
  if forallb (fun entry => accepts entry.2 (body !! entry.1)) shape
  then Some (filter (fun kv => kv.1 ∈ shape.*1) body)
  else None.

End Zod.

Definition HOTEL_ENUM : list string := [ "City Hotel"; "Resort Hotel" ].
Definition MEAL_ENUM : list string := [ "BB"; "HB"; "FB"; "SC"; "" ].
Definition MARKET_SEGMENT_ENUM : list string :=
  [ "Corporate"; "Direct"; "Groups"; "Online TA" ].
Definition CUSTOMER_TYPE_ENUM : list string :=
  [ "Transient"; "Contract"; "Group"; "Other" ].
Definition RESERVED_ROOM_ENUM : list string :=
  [ "A"; "B"; "C"; "D"; "E"; "F"; "G"; "H" ].
Definition RES_STATUS_ENUM : list string := [ "Canceled"; "Checked-In"; "No-Show" ].

Definition is_digit (c : ascii) : bool :=
  let n := nat_of_ascii c in (48 <=? n)%nat && (n <=? 57)%nat.

(** The regular expression [/^\d{4}-\d{2}-\d{2}$/]. *)
Definition matches_date_pattern (s : string) : bool :=
  match list_ascii_of_string s with
  | [y1; y2; y3; y4; d1; m1; m2; d2; a1; a2] =>
      is_digit y1 && is_digit y2 && is_digit y3 && is_digit y4
      && Ascii.eqb d1 "-" && is_digit m1 && is_digit m2
      && Ascii.eqb d2 "-" && is_digit a1 && is_digit a2
  | _ => false
  end.

Definition bookingBaseSchema : list (string * Zod.Schema) :=
  [ ("hotel", Zod.enum HOTEL_ENUM);
    ("lead_time", Zod.number [Zod.int; Zod.nonnegative]);
    ("arrival_date_year", Zod.number [Zod.int; Zod.min 2000]);
    ("arrival_date_month", Zod.string_ [Zod.min_length 1]);
    ("arrival_date_week_number", Zod.number [Zod.int; Zod.min 1; Zod.max 53]);
    ("arrival_date_day_of_month", Zod.number [Zod.int; Zod.min 1; Zod.max 31]);
    ("stays_in_weekend_nights", Zod.number [Zod.int; Zod.min 0]);
    ("stays_in_week_nights", Zod.number [Zod.int; Zod.min 0]);
    ("adults", Zod.number [Zod.int; Zod.min 0]);
    ("children", Zod.number [Zod.int; Zod.min 0]);
    ("babies", Zod.number [Zod.int; Zod.min 0]);
    ("meal", Zod.enum MEAL_ENUM);
    ("country", Zod.string_ [Zod.min_length 2; Zod.max_length 3]);
    ("market_segment", Zod.enum MARKET_SEGMENT_ENUM);
    ("is_repeated_guest", Zod.boolean);
    ("reserved_room_type", Zod.enum RESERVED_ROOM_ENUM);
    ("agent", Zod.optional (Zod.nullable (Zod.string_ [])));
    ("company", Zod.optional (Zod.nullable (Zod.string_ [])));
    ("customer_type", Zod.enum CUSTOMER_TYPE_ENUM);
    ("adr", Zod.number []);
    ("required_car_parking_spaces", Zod.number [Zod.int; Zod.min 0]);
    ("total_of_special_requests", Zod.number [Zod.int; Zod.min 0]);
    ("reservation_status", Zod.enum RES_STATUS_ENUM);
    ("reservation_status_date", Zod.string_ [Zod.regex matches_date_pattern]) ].

Definition bookingCreateSchema : list (string * Zod.Schema) := bookingBaseSchema.

Definition monthMap : gmap string nat :=
  list_to_map
    [ ("january", 0%nat); ("february", 1%nat); ("march", 2%nat); ("april", 3%nat);
      ("may", 4%nat); ("june", 5%nat); ("july", 6%nat); ("august", 7%nat);
      ("september", 8%nat); ("october", 9%nat); ("november", 10%nat);
      ("december", 11%nat) ].

(** The month argument that [computeArrivalDate] hands to [Date.UTC]: an
    index of [monthMap], or a property that [monthMap] inherits (which is
    not [undefined], so does not raise). *)
Inductive MonthArgument : Type :=
  | MonthIndex (index : nat)
  | InheritedProperty (name : string).

(** [new Date(Date.UTC(year, month, day))], kept by its arguments. *)
Record ArrivalDate : Type := {
  utc_year : Q;
  utc_month : MonthArgument;
  utc_day : Q
}.

Definition computeArrivalDate (year : Q) (month : string) (day : Q)
    : Thrown + ArrivalDate :=
  let normalized := toLowerCase (trim month) in
  match monthMap !! normalized with
  | Some monthIndex =>
      inr {| utc_year := year; utc_month := MonthIndex monthIndex; utc_day := day |}
  | None =>
      if Array_includes ("__proto__" :: Object_prototype_functions) normalized
      then inr {| utc_year := year; utc_month := InheritedProperty normalized;
                  utc_day := day |}
      else inl (JsError ("Invalid month name: " +:+ month))
  end.

(** The [data] argument of [prisma.booking.create]: the fields, and the
    arrival date. *)
Record CreateData : Type := {
  data_fields : Draft;
  data_arrival_date : ArrivalDate
}.

(** The outcome of the handler: the status with the error envelope, or the
    created booking of the [201] response. *)
Inductive ApiReply : Type :=
  | ErrorReply (status : nat) (code : string) (error_text : string)
  | DataReply (data : Draft).

(** What a handler passes to [next]: the error of a failed [parse], or
    another thrown value. *)
Inductive Failure : Type :=
  | ZodError
  | Raised (e : Thrown).

(** The error middleware. *)
Definition error_reply (failure : Failure) : ApiReply :=
  match failure with
  | ZodError => ErrorReply 400 "VALIDATION_ERROR" "Invalid request payload"
  | Raised (JsError message) =>
      if String.prefix "Invalid month" message
      then ErrorReply 400 "INVALID_MONTH" message
      else ErrorReply 500 "INTERNAL_ERROR" "Unexpected error"
  | Raised NotAnError => ErrorReply 500 "INTERNAL_ERROR" "Unexpected error"
  end.

Definition number_of (v : option JValue) : Q :=
  match v with Some (JNum n) => n | _ => 0 end.

Definition string_of (v : option JValue) : string :=
  match v with Some (JStr s) => s | _ => "" end.

(** [app.post("/api/v1/bookings", ...)], over the create operation of the
    persistence layer. *)
Definition post_bookings (prisma_booking_create : CreateData → Thrown + Draft)
    (body : Draft) : ApiReply :=
  match Zod.parse_object bookingCreateSchema body with
  | None => error_reply ZodError
  | Some payload =>
      match computeArrivalDate (number_of (payload !! "arrival_date_year"))
                               (string_of (payload !! "arrival_date_month"))
                               (number_of (payload !! "arrival_date_day_of_month")) with
      | inl e => error_reply (Raised e)
      | inr arrival_date =>
          let data :=
            {| data_fields :=
                 <["agent" := default JNull (payload !! "agent")]>
                   (<["company" := default JNull (payload !! "company")]> payload);
               data_arrival_date := arrival_date |} in
          match prisma_booking_create data with
          | inl e => error_reply (Raised e)
          | inr booking => DataReply booking
          end
      end
  end.

(** [requestJson] of the record-store client, followed by the [.data] of
    its callers: an error envelope is thrown as an [Error] with the
    message of the envelope, a data envelope resolves to its data. *)
Definition requestJson (reply : ApiReply) : Thrown + Draft :=
  match reply with
  | ErrorReply _ _ error_text => inl (JsError error_text)
  | DataReply data => inr data
  end.

(** Modelled from the spec: the persistence layer and the declaration of
    its booking model are not part of the sources. A persisted booking is
    "an identifier plus all booking fields, a creation timestamp, and a
    soft-delete marker"; [generated] holds what the store adds (the
    identifier, the timestamps, the serialised arrival date), the booking
    fields are stored as given. *)
Definition store_create (generated : Draft) (data : CreateData) : Thrown + Draft :=
  inr (data_fields data ∪ generated).

(** * The specification side *)

(** ** The draft validator, as the specification words it *)

Module ValidatorSpec.

Definition CANONICAL_MONTH_NAMES : list string :=
  [ "January"; "February"; "March"; "April"; "May"; "June"; "July";
    "August"; "September"; "October"; "November"; "December" ].

(** An empty or whitespace-only string. *)
Definition blank (s : string) : Prop :=
  Forall (fun c => is_white_space c = true) (list_ascii_of_string s).

(** The string, trimmed, is one of the twelve canonical month names up to
    the case of its letters. *)
Definition names_a_month (s : string) : Prop :=
  ∃ month, month ∈ CANONICAL_MONTH_NAMES
           ∧ toLowerCase (trim s) = toLowerCase month.

(** When a field counts as missing. *)
Inductive counts_as_missing (draft : Draft) (field : string) : Prop :=
  | missing_absent :
      draft !! field = None → counts_as_missing draft field
  | missing_null :
      draft !! field = Some JNull → counts_as_missing draft field
  | missing_blank s :
      draft !! field = Some (JStr s) → blank s →
      counts_as_missing draft field
  | missing_not_a_number v :
      field ∈ NUMBER_FIELDS → draft !! field = Some v → typeof v ≠ TyNumber →
      counts_as_missing draft field
  | missing_not_a_boolean v :
      field ∈ BOOLEAN_FIELDS → draft !! field = Some v → typeof v ≠ TyBoolean →
      counts_as_missing draft field
  | missing_not_a_month s :
      field = "arrival_date_month" → draft !! field = Some (JStr s) →
      ¬ names_a_month s →
      counts_as_missing draft field.

End ValidatorSpec.

Import ValidatorSpec.

(** ** The confirmation gate and the record-store calls of a turn *)

(** The confirmation gate, as the specification words it: the
    confirmation token is in the latest utterance, whatever the case of
    its letters, and the list of missing fields is empty. *)
Definition isAuthorized (latestUserUtterance : string) (missingFields : list string)
    : bool :=
  includes (toLowerCase latestUserUtterance) "confirm"
  && bool_decide (missingFields = []).

Definition authorized (body : RequestBody) : bool :=
  isAuthorized (latestUser body) (getMissingFields (body_booking body)).

(** The mutation that an authorized turn issues for a draft. *)
Definition mutation_for (booking : Draft) : StoreCall :=
  match booking !! "id" with
  | Some (JStr id) => UpdateBooking (Some (JStr id)) (Some (JObj (delete "id" booking)))
  | _ => CreateBooking (Some (JObj booking))
  end.

(** What the record store answers to a call, in a world. *)
Definition store_answer {W} (io : Collaborators W) (c : StoreCall) (w : W)
    : (Thrown + Draft) * W :=
  match c with
  | CreateBooking payload => createBooking io payload w
  | UpdateBooking id patch => updateBooking io id patch w
  | GetBooking id => getBooking io id w
  end.

(** The record-store call that a tool call of the model stands for. *)
Definition proposed_call (toolCall : ToolCall) (args : Draft) : option StoreCall :=
  if String.eqb (function_name toolCall) "create_booking"
  then Some (CreateBooking (args !! "payload"))
  else if String.eqb (function_name toolCall) "update_booking"
  then Some (UpdateBooking (args !! "id") (args !! "patch"))
  else if String.eqb (function_name toolCall) "get_booking"
  then Some (GetBooking (args !! "id"))
  else None.

(** The model proposes the call: some completion carries a tool call that
    stands for it. *)
Definition proposed_by_model {W} (io : Collaborators W) (c : StoreCall) : Prop :=
  ∃ conversation w choice w' toolCall args,
    chat_completions_create io conversation w = (inr choice, w')
    ∧ toolCall ∈ tool_calls choice
    ∧ function_arguments toolCall = ArgumentsObject args
    ∧ proposed_call toolCall args = Some c.

(** The response of a turn that returns. *)
Definition response_of {W} (r : Outcome Response * TurnState W) : option Response :=
  match r.1 with
  | Returned response => Some response
  | Escaped _ => None
  end.

(** A turn: the route run from a world, no call issued yet. *)
Definition turn {W} `{JsRuntime} (io : Collaborators W) (body : RequestBody) (w : W)
    : Outcome Response * TurnState W :=
  POST io body {| world := w; issued := [] |}.

(** A call issued by the loop over the tool calls is the call of one of
    them; without the confirmation token, of one that names no mutation. *)
Definition from_tool_call (c : bool) (calls : list ToolCall) (call : StoreCall) : Prop :=
  ∃ toolCall args,
    toolCall ∈ calls
    ∧ function_arguments toolCall = ArgumentsObject args
    ∧ proposed_call toolCall args = Some call
    ∧ (c = false → names_mutation toolCall = false).

(** The human-readable label of a field of the catalog. *)
Definition human_label (field : string) : string :=
  default field (FIELD_LABELS !! field).

(** The draft of an informational reply: the draft of the turn with the
    fields that the model extracted merged into it. *)
Definition merged_draft (booking : option Draft) (parsed : ParsedReply) : option Draft :=
  match parsed_draft parsed with
  | Some delta => Some (merge_draft booking delta)
  | None => booking
  end.

(** The completion endpoint resolves, and the arguments of its tool calls
    parse. *)
Definition cooperative {W} (io : Collaborators W) : Prop :=
  ∀ conversation w,
    ∃ choice w',
      chat_completions_create io conversation w = (inr choice, w')
      ∧ Forall (fun toolCall => ∃ args, function_arguments toolCall = ArgumentsObject args)
          (tool_calls choice).

(** ** Scenarios *)

Module Scenarios.

(** A runtime for the scenarios: integers print in decimal, the only
    numbers that the scenarios print, and built-in functions print as the
    V8 engine prints them. *)
#[export] Instance runtime : JsRuntime := {|
  Number_toString n := pretty (Qnum (Qred n));
  Function_toString f := "function " +:+ f +:+ "() { [native code] }"
|}.

(** A draft with every required field. *)
Definition complete_draft : Draft :=
  list_to_map
    [ ("hotel", JStr "Resort Hotel");
      ("lead_time", JNum 30);
      ("arrival_date_year", JNum 2027);
      ("arrival_date_month", JStr "August");
      ("arrival_date_week_number", JNum 32);
      ("arrival_date_day_of_month", JNum 9);
      ("stays_in_weekend_nights", JNum 2);
      ("stays_in_week_nights", JNum 3);
      ("adults", JNum 2);
      ("children", JNum 1);
      ("babies", JNum 0);
      ("meal", JStr "BB");
      ("country", JStr "PRT");
      ("market_segment", JStr "Direct");
      ("is_repeated_guest", JBool false);
      ("reserved_room_type", JStr "A");
      ("customer_type", JStr "Transient");
      ("adr", JNum (199 # 2));
      ("required_car_parking_spaces", JNum 0);
      ("total_of_special_requests", JNum 1);
      ("reservation_status", JStr "Checked-In");
      ("reservation_status_date", JStr "2027-08-09") ].

(** The same booking with the empty meal plan, which the meal enumeration
    of the store and the label of the field both allow. *)
Definition no_meal_draft : Draft := <["meal" := JStr ""]> complete_draft.

(** A booking that the store has already persisted. *)
Definition persisted_draft : Draft := <["id" := JStr "bk_7"]> complete_draft.

(** What the store adds to a created booking. *)
Definition generated : Draft :=
  list_to_map
    [ ("id", JStr "bk_1");
      ("arrival_date", JStr "2027-08-09T00:00:00.000Z");
      ("created_at", JStr "2027-01-15T10:00:00.000Z");
      ("deleted_at", JNull) ].

(** A record store without bookings: it creates through the create
    endpoint and finds no booking to read or to update. *)
Definition empty_store (c : StoreCall) : Thrown + Draft :=
  match c with
  | CreateBooking (Some (JObj body)) =>
      requestJson (post_bookings (store_create generated) body)
  | CreateBooking _ => inl (JsError "Invalid request payload")
  | UpdateBooking _ _ => inl (JsError "Booking not found")
  | GetBooking _ => inl (JsError "Booking not found")
  end.

(** Collaborators whose world is the script of the completions to come. *)
Definition scripted : Collaborators (list Completion) :=
  {| chat_completions_create _ script :=
       match script with
       | choice :: rest => (inr choice, rest)
       | [] => (inr {| tool_calls := []; message_content := None |}, [])
       end;
     createBooking payload script := (empty_store (CreateBooking payload), script);
     updateBooking id patch script := (empty_store (UpdateBooking id patch), script);
     getBooking id script := (empty_store (GetBooking id), script) |}.

Definition says (text : string) : list ChatMessage :=
  [ {| role := user; content := text |} ].

(** A completion that proposes to create the booking of the payload. *)
Definition proposes_create (payload : Draft) : Completion :=
  {| tool_calls :=
       [ {| id := "call_1";
            function_name := "create_booking";
            function_arguments := ArgumentsObject {[ "payload" := JObj payload ]} |} ];
     message_content := None |}.

(** A completion that answers in JSON. *)
Definition answers (reply : ParsedReply) : Completion :=
  {| tool_calls := []; message_content := Some (JsonReply reply) |}.

(** Collaborators whose model never calls a tool and never answers. *)
Definition quiet : Collaborators unit :=
  {| chat_completions_create _ w :=
       (inr {| tool_calls := []; message_content := None |}, w);
     createBooking payload w := (empty_store (CreateBooking payload), w);
     updateBooking id patch w := (empty_store (UpdateBooking id patch), w);
     getBooking id w := (empty_store (GetBooking id), w) |}.

(** The user confirms before any field is known, and the model proposes
    to create a booking. *)
Definition early_confirmation : RequestBody :=
  {| messages := says "confirm"; body_booking := None |}.

(** The user confirms a draft whose meal plan is empty, and the model
    proposes to create it. *)
Definition confirmation_without_meal : RequestBody :=
  {| messages := says "Yes, I confirm"; body_booking := Some no_meal_draft |}.

(** The user confirms a complete draft. *)
Definition confirmation : RequestBody :=
  {| messages := says "Please CONFIRM the booking"; body_booking := Some complete_draft |}.

(** The user confirms a complete draft of a booking that the store does
    not have. *)
Definition confirmation_of_unknown : RequestBody :=
  {| messages := says "confirm"; body_booking := Some persisted_draft |}.

(** The user approves a complete draft without the token. *)
Definition approval : RequestBody :=
  {| messages := says "looks good"; body_booking := Some complete_draft |}.

(** The first request of a conversation. *)
Definition opening : RequestBody :=
  {| messages := says "Book a Resort Hotel"; body_booking := None |}.

(** The model asks for the meal plan only. *)
Definition asks_for_meal : Completion :=
  answers {| parsed_message := Some "Which meal plan would you like?";
             parsed_draft := None;
             parsed_missing_fields := Some ["meal"];
             parsed_ready_to_confirm := Some false |}.

End Scenarios.

(** * Further code: instrumentation and the other components *)

(** ** Counting the completions of a turn *)

(** The same collaborators, over a world that also counts the calls of
    the completion endpoint. *)
Definition counting {W} (io : Collaborators W) : Collaborators (W * nat) :=
  {| chat_completions_create conversation wn :=
       let '(answer, w') := chat_completions_create io conversation wn.1 in
       (answer, (w', S wn.2));
     createBooking payload wn :=
       let '(answer, w') := createBooking io payload wn.1 in (answer, (w', wn.2));
     updateBooking id patch wn :=
       let '(answer, w') := updateBooking io id patch wn.1 in (answer, (w', wn.2));
     getBooking id wn :=
       let '(answer, w') := getBooking io id wn.1 in (answer, (w', wn.2)) |}.

(** The state of a turn with [n] completions counted. *)
Definition counted {W} (n : nat) (st : TurnState W) : TurnState (W * nat) :=
  {| world := (world st, n); issued := issued st |}.

(** A value that [getMissingFields] accepts for a field. *)
Definition acceptable (field : string) (value : JValue) : bool :=
  negb (field_is_missing {[ field := value ]} field).

(** ** The action trace *)

(** An entry of the action trace records a result or an error, not both. *)
Definition well_formed_entry (entry : ToolTrace) : Prop :=
  result entry = None ∨ error entry = None.

(** The trace accounts for the calls: it has an entry for each of them. *)
Definition traced (trace : list ToolTrace) (calls : list StoreCall) : Prop :=
  (length calls ≤ length trace)%nat ∧ Forall well_formed_entry trace.

(** ** The booking API: the handlers, the guard and the error replies *)

Module Api.

(** The [data] of an update: the fields and the arrival date of a patch,
    or the marker of a soft delete ([{ deleted_at: new Date() }], the
    time being the store's to read). *)
Inductive DateArgument : Type :=
  | KeptDate (stored : option JValue)
  | NewDate (date : ArrivalDate).

Inductive UpdateData : Type :=
  | PatchData (fields : Draft) (arrival_date : DateArgument)
  | SoftDelete.

(** The queries that the handlers send to the persistence layer.
    [FindFirst id] is [findFirst({ where: { id, deleted_at: null } })],
    [Update id data] is [update({ where: { id }, data })]. *)
Inductive Query : Type :=
  | Create (data : CreateData)
  | FindFirst (id : string)
  | Update (id : string) (data : UpdateData).

(** The persistence layer, over a world that it may change; each
    operation resolves or rejects. *)
Record Prisma (W : Type) : Type := {
  create : CreateData → W → (Thrown + Draft) * W;
  findFirst : string → W → (Thrown + option Draft) * W;
  update : string → UpdateData → W → (Thrown + Draft) * W
}.
Arguments create {W}.
Arguments findFirst {W}.
Arguments update {W}.

(** The JSON body of a response: [{ data }] or [{ error: { code,
    message, details } }] (the details are not modelled). *)
Inductive Envelope : Type :=
  | Data (booking : Draft)
  | Error (code : string) (message : string).

Record Reply : Type := {
  status : nat;
  envelope : Envelope
}.

(** The state of the server during a request: the world of the
    persistence layer and the queries sent, oldest first. *)
Record ServerState (W : Type) : Type := {
  db : W;
  queries : list Query
}.
Arguments db {W}.
Arguments queries {W}.

Definition sendError (code message : string) : Reply :=
  {| status := if String.eqb code "NOT_FOUND" then 404 else 400;
     envelope := Error code message |}.

(** The error middleware, for what a handler passes to [next]. *)
Definition error_middleware (failure : Failure) : Reply :=
  match failure with
  | ZodError =>
      {| status := 400;
         envelope := Error "VALIDATION_ERROR" "Invalid request payload" |}
  | Raised (JsError message) =>
      if String.prefix "Invalid month" message
      then {| status := 400; envelope := Error "INVALID_MONTH" message |}
      else {| status := 500; envelope := Error "INTERNAL_ERROR" "Unexpected error" |}
  | Raised NotAnError =>
      {| status := 500; envelope := Error "INTERNAL_ERROR" "Unexpected error" |}
  end.

(** [bookingBaseSchema.partial()]. *)
Definition bookingPatchSchema : list (string * Zod.Schema) :=
  map (fun entry => (entry.1, Zod.optional entry.2)) bookingBaseSchema.

(** [a ?? b] on the value of a key. *)
Definition nullish_or (a b : option JValue) : option JValue :=
  match a with
  | None | Some JNull => b
  | Some _ => a
  end.

(** A key of an object literal whose value may be [undefined]: the
    persistence layer leaves such a key as it is. *)
Definition with_key (key : string) (value : option JValue) (fields : Draft) : Draft :=
  match value with
  | Some v => <[key := v]> fields
  | None => fields
  end.

Section Handlers.
Context {W : Type} (prisma : Prisma W).

(** An awaited query: it is sent, then it resolves or rejects. *)
Definition query {A} (q : Query) (f : W → (Thrown + A) * W) (st : ServerState W)
    : (Thrown + A) * ServerState W :=
  let '(answer, w') := f (db st) in
  (answer, {| db := w'; queries := queries st ++ [q] |}).

(** [app.post("/api/v1/bookings", ...)]. *)
Definition post_booking (body : Draft) (st : ServerState W) : Reply * ServerState W :=
  match Zod.parse_object bookingCreateSchema body with
  | None => (error_middleware ZodError, st)
  | Some payload =>
      match computeArrivalDate (number_of (payload !! "arrival_date_year"))
                               (string_of (payload !! "arrival_date_month"))
                               (number_of (payload !! "arrival_date_day_of_month")) with
      | inl e => (error_middleware (Raised e), st)
      | inr arrival_date =>
          let data :=
            {| data_fields :=
                 <["agent" := default JNull (payload !! "agent")]>
                   (<["company" := default JNull (payload !! "company")]> payload);
               data_arrival_date := arrival_date |} in
          match query (Create data) (create prisma data) st with
          | (inl e, st') => (error_middleware (Raised e), st')
          | (inr booking, st') => ({| status := 201; envelope := Data booking |}, st')
          end
      end
  end.

(** [app.get("/api/v1/bookings/:id", ...)]. *)
Definition get_booking (id : string) (st : ServerState W) : Reply * ServerState W :=
  match query (FindFirst id) (findFirst prisma id) st with
  | (inl e, st') => (error_middleware (Raised e), st')
  | (inr None, st') => (sendError "NOT_FOUND" "Booking not found", st')
  | (inr (Some booking), st') => ({| status := 200; envelope := Data booking |}, st')
  end.

(** The arrival date that a patch gives to the update: the stored one
    when the patch has none of the three date fields, the date of the
    three fields otherwise, each taken from the patch or else from the
    stored booking. *)
Definition patched_arrival_date (patch existing : Draft) : Thrown + DateArgument :=
  let year := nullish_or (patch !! "arrival_date_year") (existing !! "arrival_date_year") in
  let month := nullish_or (patch !! "arrival_date_month") (existing !! "arrival_date_month") in
  let day :=
    nullish_or (patch !! "arrival_date_day_of_month")
      (existing !! "arrival_date_day_of_month") in
  if bool_decide (is_Some (patch !! "arrival_date_year"))
     || bool_decide (is_Some (patch !! "arrival_date_month"))
     || bool_decide (is_Some (patch !! "arrival_date_day_of_month"))
  then
    match computeArrivalDate (number_of year) (string_of month) (number_of day) with
    | inl e => inl e
    | inr date => inr (NewDate date)
    end
  else inr (KeptDate (existing !! "arrival_date")).

(** The [data] of the update of a patch. *)
Definition patch_data (patch existing : Draft) (arrival_date : DateArgument)
    : UpdateData :=
  PatchData
    (with_key "agent"
       (match patch !! "agent" with
        | Some agent => Some agent
        | None => existing !! "agent"
        end)
       (with_key "company"
          (match patch !! "company" with
           | Some company => Some company
           | None => existing !! "company"
           end)
          patch))
    arrival_date.

(** [app.patch("/api/v1/bookings/:id", ...)]. *)
Definition patch_booking (id : string) (body : Draft) (st : ServerState W)
    : Reply * ServerState W :=
  match Zod.parse_object bookingPatchSchema body with
  | None => (error_middleware ZodError, st)
  | Some patch =>
      match query (FindFirst id) (findFirst prisma id) st with
      | (inl e, st') => (error_middleware (Raised e), st')
      | (inr None, st') => (sendError "NOT_FOUND" "Booking not found", st')
      | (inr (Some existing), st') =>
          match patched_arrival_date patch existing with
          | inl e => (error_middleware (Raised e), st')
          | inr arrival_date =>
              let target := string_of (existing !! "id") in
              let data := patch_data patch existing arrival_date in
              match query (Update target data) (update prisma target data) st' with
              | (inl e, st'') => (error_middleware (Raised e), st'')
              | (inr booking, st'') =>
                  ({| status := 200; envelope := Data booking |}, st'')
              end
          end
      end
  end.

(** [app.delete("/api/v1/bookings/:id", ...)]. *)
Definition delete_booking (id : string) (st : ServerState W) : Reply * ServerState W :=
  match query (FindFirst id) (findFirst prisma id) st with
  | (inl e, st') => (error_middleware (Raised e), st')
  | (inr None, st') => (sendError "NOT_FOUND" "Booking not found", st')
  | (inr (Some existing), st') =>
      let target := string_of (existing !! "id") in
      match query (Update target SoftDelete) (update prisma target SoftDelete) st' with
      | (inl e, st'') => (error_middleware (Raised e), st'')
      | (inr booking, st'') => ({| status := 200; envelope := Data booking |}, st'')
      end
  end.

(** The routes of the application under [/api/v1], the listing apart. *)
Inductive Route : Type :=
  | PostBookings (body : Draft)
  | GetBooking (id : string)
  | PatchBooking (id : string) (body : Draft)
  | DeleteBooking (id : string).

Record Request : Type := {
  x_api_key : option string;
  route : Route
}.

(** [apiKeyGuard], for the key of the environment and the header of the
    request: the reply that ends the request, or [None] for [next()]. *)
Definition apiKeyGuard (apiKey : option string) (header : option string)
    : option Reply :=
  match apiKey with
  | None | Some "" => None
  | Some key =>
      if bool_decide (header = Some key) then None
      else Some {| status := 401; envelope := Error "UNAUTHORIZED" "Invalid API key" |}
  end.

Definition handle (r : Route) : ServerState W → Reply * ServerState W :=
  match r with
  | PostBookings body => post_booking body
  | GetBooking id => get_booking id
  | PatchBooking id body => patch_booking id body
  | DeleteBooking id => delete_booking id
  end.

(** The application: the guard, then the handler of the route. *)
Definition app (apiKey : option string) (request : Request) (st : ServerState W)
    : Reply * ServerState W :=
  match apiKeyGuard apiKey (x_api_key request) with
  | Some refusal => (refusal, st)
  | None => handle (route request) st
  end.

(** A request served from a world, no query sent yet. *)
Definition serve (apiKey : option string) (request : Request) (w : W)
    : Reply * ServerState W :=
  app apiKey request {| db := w; queries := [] |}.

End Handlers.

(** The reply as the earlier, smaller model of the create endpoint has it. *)
Definition to_ApiReply (reply : Reply) : ApiReply :=
  match envelope reply with
  | Data booking => DataReply booking
  | Error code message => ErrorReply (status reply) code message
  end.

End Api.


(** Whether [computeArrivalDate] returns for a month: its normalised name
    is a key of [monthMap], or a property that [monthMap] inherits. *)
Definition resolves_month (month : string) : bool :=
  bool_decide (is_Some (monthMap !! toLowerCase (trim month)))
  || Array_includes ("__proto__" :: Object_prototype_functions)
       (toLowerCase (trim month)).

(** Modelled from the spec: the persistence layer is not part of the
    sources. A store for the examples, which holds the bookings of [rows]
    and leaves them as they are: it creates as [store_create] does, finds
    the first booking of an identifier that is not deleted, and resolves
    an update to the stored booking. *)
Definition holding (rows : list Draft) : Api.Prisma () :=
  let find id :=
    head (filter (fun row : Draft =>
                    String.eqb (string_of (row !! "id")) id
                    && match row !! "deleted_at" with
                       | None | Some JNull => true
                       | Some _ => false
                       end)
            rows) in
  {| Api.create data w := (store_create Scenarios.generated data, w);
     Api.findFirst id w := (inr (find id), w);
     Api.update id data w :=
       (match find id with
        | Some row => inr row
        | None => inl (JsError "Record to update not found.")
        end, w) |}.

(** A complete booking whose month is the name of a property that every
    object inherits. *)
Definition inherited_month_body : Draft :=
  <["arrival_date_month" := JStr "constructor"]> Scenarios.complete_draft.

(** What the create route writes for it. *)
Definition inherited_month_data : CreateData :=
  let payload := default ∅ (Zod.parse_object bookingCreateSchema inherited_month_body) in
  {| data_fields :=
       <["agent" := default JNull (payload !! "agent")]>
         (<["company" := default JNull (payload !! "company")]> payload);
     data_arrival_date :=
       {| utc_year := 2027; utc_month := InheritedProperty "constructor";
          utc_day := 9 |} |}.

(** ** The record-store client *)

Module Client.

(** The [x-api-key] header that [requestJson] sets, for the key of the
    environment of the client: none when the key is not set or empty. *)
Definition x_api_key (apiKey : option string) : option string :=
  match apiKey with
  | None | Some "" => None
  | Some key => Some key
  end.

(** [response.ok]. *)
Definition ok (response : Api.Reply) : bool :=
  (200 <=? Api.status response)%nat && (Api.status response <=? 299)%nat.

(** [requestJson], from the response on: the payload, or the error
    thrown for a response that is not ok, whose message is
    [errorPayload.error?.message ?? "API error"]. *)
Definition requestJson (response : Api.Reply) : Thrown + Api.Envelope :=
  if ok response then inr (Api.envelope response)
  else
    inl (JsError match Api.envelope response with
                 | Api.Error _ message => message
                 | Api.Data _ => "API error"
                 end).

(** [result.data] in [createBooking], [updateBooking] and [getBooking];
    [None] is the [undefined] of a payload without [data]. *)
Definition data (response : Api.Reply) : Thrown + option Draft :=
  match requestJson response with
  | inl e => inl e
  | inr (Api.Data booking) => inr (Some booking)
  | inr (Api.Error _ _) => inr None
  end.

End Client.

(** ** The MCP server *)

Module Mcp.

(** The result of a tool call: the booking, serialised into the text of
    the content, or the message of an error result (the details of the
    error are not modelled). *)
Inductive CallToolResult : Type :=
  | Content (booking : Draft)
  | IsError (error_text : string).

(** [z.record(z.unknown())] and [z.string()] on the value of a key. *)
Definition record_of (value : option JValue) : option Draft :=
  match value with
  | Some (JObj fields) => Some fields
  | _ => None
  end.

Definition text_of (value : option JValue) : option string :=
  match value with
  | Some (JStr s) => Some s
  | _ => None
  end.

(** The three input schemas, on [request.params.arguments]; [None] is a
    failed [parse]. *)
Definition createBookingSchema (arguments : option Draft) : option Draft :=
  args ← arguments; record_of (args !! "payload").

Definition updateBookingSchema (arguments : option Draft) : option (string * Draft) :=
  args ← arguments;
  id ← text_of (args !! "id");
  patch ← record_of (args !! "patch");
  Some (id, patch).

Definition getBookingSchema (arguments : option Draft) : option string :=
  args ← arguments; text_of (args !! "id").

(** The tool that a call of the record-store client serves. *)
Definition tool_of (c : StoreCall) : string :=
  match c with
  | CreateBooking _ => "create_booking"
  | UpdateBooking _ _ => "update_booking"
  | GetBooking _ => "get_booking"
  end.

(** *** The tools that the server lists *)

(** The types that the input schemas of the tools use. *)
Inductive JsonType : Type := TObject | TString.

(** A tool as [ListToolsRequestSchema] lists it: its name and its input
    schema, an object with typed properties, some of them required. *)
Record Tool : Type := {
  tool_name : string;
  properties : list (string * JsonType);
  required : list string
}.

Definition tools : list Tool :=
  [ {| tool_name := "create_booking";
       properties := [("payload", TObject)];
       required := ["payload"] |};
    {| tool_name := "update_booking";
       properties := [("id", TString); ("patch", TObject)];
       required := ["id"; "patch"] |};
    {| tool_name := "get_booking";
       properties := [("id", TString)];
       required := ["id"] |} ].

Definition has_type (t : JsonType) (value : JValue) : bool :=
  match t, value with
  | TObject, JObj _ => true
  | TString, JStr _ => true
  | _, _ => false
  end.

(** Whether arguments meet the input schema of a tool, as JSON Schema
    reads it: the arguments are an object, the required properties are
    there, and a property that is there has its type. *)
Definition meets (tool : Tool) (arguments : option Draft) : bool :=
  match arguments with
  | None => false
  | Some args =>
      forallb (fun key => bool_decide (is_Some (args !! key))) (required tool)
      && forallb (fun property : string * JsonType =>
                    match args !! property.1 with
                    | Some value => has_type property.2 value
                    | None => true
                    end)
           (properties tool)
  end.

(** *** The handler of a tool call *)

Section Server.
Context {W : Type} (io : Collaborators W).

(** The message of the [ZodError] of a failed [parse], for the tool and
    its input. *)
Context (ZodError_message : string → option Draft → string).

Definition parse {A} (tool : string) (schema : option Draft → option A)
    (arguments : option Draft) : Turn W A :=
  match schema arguments with
  | Some input => mret input
  | None => throw (JsError (ZodError_message tool arguments))
  end.

(** The handler of [CallToolRequestSchema], for [request.params.name] and
    [request.params.arguments]. *)
Definition call_tool (name : string) (arguments : option Draft)
    : Turn W CallToolResult :=
  attempt ←
    try_catch
      (if String.eqb name "create_booking" then
         payload ← parse name createBookingSchema arguments;
         booking ← store_call (CreateBooking (Some (JObj payload)))
                      (createBooking io (Some (JObj payload)));
         mret (Content booking)
       else if String.eqb name "update_booking" then
         input ← parse name updateBookingSchema arguments;
         booking ← store_call
                      (UpdateBooking (Some (JStr input.1)) (Some (JObj input.2)))
                      (updateBooking io (Some (JStr input.1)) (Some (JObj input.2)));
         mret (Content booking)
       else if String.eqb name "get_booking" then
         id ← parse name getBookingSchema arguments;
         booking ← store_call (GetBooking (Some (JStr id)))
                      (getBooking io (Some (JStr id)));
         mret (Content booking)
       else throw (JsError ("Unknown tool: " +:+ name)));
  mret match attempt with
       | inr result => result
       | inl e => IsError (error_message e)
       end.

End Server.

End Mcp.

(** ** The earlier chat route *)

(** The route as [apps/web/app/api/chat/route.ts] has it: the same tool
    loop, without the branch of the confirmed complete draft and without
    the list of missing fields in the reply. *)
Module Earlier.

Section Route.
Context {W : Type} (io : Collaborators W) `{JsRuntime}.

Definition informational_reply (choice : Completion) (vars : Locals) : Response :=
  let content := default (NotJson "") (message_content choice) in
  let parsed := extractJson content in
  let booking :=
    match parsed_draft parsed with
    | Some draft => Some (merge_draft (l_booking vars) draft)
    | None => l_booking vars
    end in
  {| message := default "" (parsed_message parsed);
     booking := booking;
     toolTrace := l_toolTrace vars |}.

Fixpoint rounds (left : nat) (confirmed : bool) (vars : Locals) : Turn W Response :=
  match left with
  | O =>
      mret {| message := "Let's continue the booking details.";
              booking := l_booking vars;
              toolTrace := l_toolTrace vars |}
  | S left' =>
      choice ← await (chat_completions_create io (l_conversation vars));
      match tool_calls choice with
      | _ :: _ =>
          after ← run_tool_calls io confirmed (tool_calls choice) vars;
          match after with
          | inl response => mret response
          | inr vars' => rounds left' confirmed vars'
          end
      | [] => mret (informational_reply choice vars)
      end
  end.

Definition POST (body : RequestBody) : Turn W Response :=
  let confirmed := confirmed body in
  let baseMessages :=
    SystemPrompt (default ∅ (body_booking body)) :: map Chat (messages body) in
  rounds 2 confirmed
    {| l_booking := body_booking body;
       l_conversation := baseMessages;
       l_toolTrace := [] |}.

End Route.

End Earlier.





(** ** The page *)

Module Page.

(** [confirmationReady], which shows the notice "Awaiting confirmation
    in chat. Say confirm to finalize.":
    [messages.slice(-1)[0]?.content.toLowerCase().includes("confirm")]. *)
Definition confirmationReady (messages : list ChatMessage) : bool :=
  match last messages with
  | Some m => includes (toLowerCase (content m)) "confirm"
  | None => false
  end.

(** The message that [sendMessage] appends for the payload of a reply. *)
Definition reply_message (payload : Response) : ChatMessage :=
  {| role := assistant; content := message payload |}.

End Page.

(** * Properties *)

(** ** The draft validator *)

Lemma trimStart_empty (s : string) : trimStart s = "" ↔ blank s.
Proof.
  unfold blank. induction s as [|c rest IH]; simpl.
  - split; [constructor | reflexivity].
  - destruct (is_white_space c) eqn:Hc.
    + rewrite IH. split.
      * intros Hrest. by constructor.
      * intros Hall. by inversion Hall.
    + split; [discriminate |].
      intros Hall. inversion Hall; congruence.
Qed.

Lemma trimStart_head (s : string) :
  trimStart s = "" ∨ ∃ c rest, trimStart s = String c rest ∧ is_white_space c = false.
Proof.
  induction s as [|c rest IH]; simpl; [by left |].
  destruct (is_white_space c) eqn:Hc; [exact IH | right; eauto].
Qed.

Lemma trimEnd_keeps_head (c : ascii) (rest : string) :
  is_white_space c = false → trimEnd (String c rest) ≠ "".
Proof.
  intros Hc. simpl. destruct (trimEnd rest); [rewrite Hc |]; discriminate.
Qed.

Lemma trim_empty (s : string) : trim s = "" ↔ blank s.
Proof.
  rewrite <- trimStart_empty. unfold trim.
  destruct (trimStart_head s) as [-> | (c & rest & -> & Hc)].
  - done.
  - split; [| discriminate].
    intros Hemp. by apply trimEnd_keeps_head in Hemp.
Qed.

Lemma month_names_lowered : MONTH_NAMES = toLowerCase <$> CANONICAL_MONTH_NAMES.
Proof. reflexivity. Qed.

Lemma normalized_month (s : string) :
  toLowerCase (trim s) ∈ MONTH_NAMES ↔ names_a_month s.
Proof.
  rewrite month_names_lowered, list_elem_of_fmap. unfold names_a_month.
  split; intros (m & H1 & H2); exists m; done.
Qed.

Lemma Set_has_true (s : gset string) (x : string) : Set_has s x = true ↔ x ∈ s.
Proof. unfold Set_has. apply bool_decide_eq_true. Qed.

Lemma Array_includes_true (l : list string) (x : string) :
  Array_includes l x = true ↔ x ∈ l.
Proof. unfold Array_includes. apply bool_decide_eq_true. Qed.

(** The callback of the filter, with its tests named. *)
Lemma field_is_missing_cases (draft : Draft) (field : string) :
  field_is_missing draft field =
    match draft !! field with
    | None | Some JNull => true
    | Some (JStr s) =>
        String.eqb (trim s) ""
        || Set_has NUMBER_FIELDS field
        || Set_has BOOLEAN_FIELDS field
        || (String.eqb field "arrival_date_month"
            && negb (Array_includes MONTH_NAMES (toLowerCase (trim s))))
    | Some (JNum _) => Set_has BOOLEAN_FIELDS field
    | Some (JBool _) => Set_has NUMBER_FIELDS field
    | Some (JArr _) | Some (JObj _) =>
        Set_has NUMBER_FIELDS field || Set_has BOOLEAN_FIELDS field
    end.
Proof.
  unfold field_is_missing.
  destruct (draft !! field) as [value|]; [| reflexivity].
  destruct (Set_has NUMBER_FIELDS field), (Set_has BOOLEAN_FIELDS field).
  all: destruct value as [| b | n | s | items | props]; try reflexivity.
  all: destruct (String.eqb (trim s) ""); try reflexivity.
  all: destruct (String.eqb field "arrival_date_month"); try reflexivity.
  all: destruct (Array_includes MONTH_NAMES (toLowerCase (trim s))); reflexivity.
Qed.

(** The callback of the filter decides [counts_as_missing]. *)
Lemma field_is_missing_spec (draft : Draft) (field : string) :
  field_is_missing draft field = true ↔ counts_as_missing draft field.
Proof.
  rewrite field_is_missing_cases. split.
  - destruct (draft !! field) as [value|] eqn:Hv; [| intros _; by apply missing_absent].
    destruct value as [| b | n | s | items | props].
    + intros _. by apply missing_null.
    + intros Hnum%Set_has_true. by eapply missing_not_a_number.
    + intros Hbool%Set_has_true. by eapply missing_not_a_boolean.
    + rewrite !orb_true_iff, andb_true_iff, negb_true_iff.
      intros [[[Hblank | Hnum] | Hbool] | [Hf Hmonth]].
      * apply String.eqb_eq, trim_empty in Hblank. by eapply missing_blank.
      * apply Set_has_true in Hnum. by eapply missing_not_a_number.
      * apply Set_has_true in Hbool. by eapply missing_not_a_boolean.
      * apply String.eqb_eq in Hf. eapply missing_not_a_month; eauto.
        rewrite <- normalized_month, <- Array_includes_true. congruence.
    + rewrite orb_true_iff.
      intros [Hnum%Set_has_true | Hbool%Set_has_true];
        [by eapply missing_not_a_number | by eapply missing_not_a_boolean].
    + rewrite orb_true_iff.
      intros [Hnum%Set_has_true | Hbool%Set_has_true];
        [by eapply missing_not_a_number | by eapply missing_not_a_boolean].
  - intros [Habs | Hnull | s Hs Hblank | v Hin Hv Hty | v Hin Hv Hty | s Hf Hs Hmonth].
    + by rewrite Habs.
    + by rewrite Hnull.
    + rewrite Hs. apply trim_empty, String.eqb_eq in Hblank. by rewrite Hblank.
    + rewrite Hv. apply Set_has_true in Hin. rewrite Hin.
      destruct v; try reflexivity; [by destruct Hty |].
      by destruct (String.eqb (trim s) "").
    + rewrite Hv. apply Set_has_true in Hin. rewrite Hin.
      destruct v; try reflexivity; try (by destruct Hty); try apply orb_true_r.
      by destruct (String.eqb (trim s) ""), (Set_has NUMBER_FIELDS field).
    + rewrite Hs. apply String.eqb_eq in Hf. rewrite Hf.
      rewrite <- normalized_month, <- Array_includes_true in Hmonth.
      apply not_true_is_false in Hmonth. rewrite Hmonth. apply orb_true_r.
Qed.

Lemma filter_sublist {A} (p : A → bool) (l : list A) : sublist (List.filter p l) l.
Proof.
  induction l as [|x l IH]; simpl; [constructor |].
  destruct (p x); by constructor.
Qed.

Lemma getMissingFields_elem (draft : option Draft) (field : string) :
  field ∈ getMissingFields draft
  ↔ field ∈ REQUIRED_FIELDS ∧ counts_as_missing (default ∅ draft) field.
Proof.
  unfold getMissingFields.
  rewrite list_elem_of_In, List.filter_In, <- list_elem_of_In.
  by rewrite field_is_missing_spec.
Qed.

(** No required field is a name that objects inherit, so that reading it
    from a draft reads an own property. *)
Lemma required_fields_not_inherited :
  Forall (fun field => field ∉ "__proto__" :: Object_prototype_functions)
    REQUIRED_FIELDS.
Proof.
  apply Forall_forall. intros field Hin.
  repeat (apply elem_of_cons in Hin as [-> | Hin];
          [by apply (bool_decide_eq_false_1 _); vm_compute |]).
  by apply elem_of_nil in Hin.
Qed.

(** C2. For every draft, [getMissingFields] returns exactly the required
    fields, in the order of the catalog, whose value is absent, null, an
    empty or whitespace-only string, not a number for a numeric field, not
    a boolean for the boolean field, or, for [arrival_date_month], a
    string that after trimming is not one of the twelve canonical month
    names up to case; every other required field is left out, values of
    the wrong kind being counted as missing and never converted. *)
Theorem getMissingFields_exact (draft : option Draft) :
  (∀ field,
     field ∈ getMissingFields draft
     ↔ field ∈ REQUIRED_FIELDS ∧ counts_as_missing (default ∅ draft) field)
  ∧ sublist (getMissingFields draft) REQUIRED_FIELDS.
Proof.
  split.
  - intros field. apply getMissingFields_elem.
  - apply filter_sublist.
Qed.

Lemma month_not_numeric : "arrival_date_month" ∉ NUMBER_FIELDS.
Proof. apply (bool_decide_eq_false_1 _). vm_compute. reflexivity. Qed.

Lemma month_not_boolean : "arrival_date_month" ∉ BOOLEAN_FIELDS.
Proof. apply (bool_decide_eq_false_1 _). vm_compute. reflexivity. Qed.

(** C10. The month-name rule applies to strings only: when
    [arrival_date_month] holds a value that is neither null nor a string
    (a number, say), [getMissingFields] does not report it. *)
Theorem month_rule_skips_non_strings (draft : Draft) (value : JValue) :
  draft !! "arrival_date_month" = Some value →
  value ≠ JNull →
  typeof value ≠ TyString →
  "arrival_date_month" ∉ getMissingFields (Some draft).
Proof.
  intros Hv Hnull Hstr [_ Hmiss]%getMissingFields_elem. simpl in Hmiss.
  destruct Hmiss as [Habs | Hn | s Hs _ | v Hin _ _ | v Hin _ _ | s _ Hs _].
  - congruence.
  - congruence.
  - rewrite Hv in Hs. injection Hs as ->. by apply Hstr.
  - by apply month_not_numeric.
  - by apply month_not_boolean.
  - rewrite Hv in Hs. injection Hs as ->. by apply Hstr.
Qed.

Lemma month_rule_skips_non_strings_witness :
  "arrival_date_month" ∉
    getMissingFields (Some ({[ "arrival_date_month" := JNum 8 ]} : Draft)).
Proof.
  apply (month_rule_skips_non_strings _ (JNum 8)); [by vm_compute | discriminate..].
Defined.

(** C8. The shallow merge of a field delta into a draft is idempotent, and
    a key of the result holds the value of the delta where the delta
    defines the key and the value of the draft otherwise. *)
Theorem merge_draft_idempotent (booking : option Draft) (delta : Draft) :
  merge_draft (Some (merge_draft booking delta)) delta = merge_draft booking delta
  ∧ ∀ key, merge_draft booking delta !! key
           = match delta !! key with
             | Some value => Some value
             | None => default ∅ booking !! key
             end.
Proof.
  unfold merge_draft. simpl. split.
  - by rewrite (assoc_L (∪)), (idemp_L (∪)).
  - intros key. rewrite lookup_union.
    destruct (delta !! key), (default ∅ booking !! key); done.
Qed.

(** Unfolds the operations of the turn monad, leaving the calls of the
    collaborators to be analysed by cases. *)
Ltac run_turn :=
  cbv [mbind Turn_bind bind try_catch throw store_call await mret Turn_ret ret].

Section TurnProperties.
Context {W : Type} (io : Collaborators W) `{JsRuntime}.

Lemma getMissingFields_None : getMissingFields None = REQUIRED_FIELDS.
Proof. vm_compute. reflexivity. Qed.

Lemma authorized_eq (body : RequestBody) :
  authorized body
  = confirmed body && bool_decide (getMissingFields (body_booking body) = []).
Proof. reflexivity. Qed.

Lemma authorized_inv (body : RequestBody) :
  authorized body = true →
  confirmed body = true
  ∧ getMissingFields (body_booking body) = []
  ∧ ∃ booking, body_booking body = Some booking.
Proof.
  rewrite authorized_eq.
  intros [Hc Hm%bool_decide_eq_true_1]%andb_true_iff.
  split_and!; [assumption.. |].
  destruct (body_booking body) as [booking|]; [by eexists |].
  rewrite getMissingFields_None in Hm. discriminate Hm.
Qed.

Lemma POST_authorized (body : RequestBody) (booking : Draft) :
  authorized body = true → body_booking body = Some booking →
  POST io body = finalize io booking.
Proof.
  intros Hauth Hb.
  destruct (authorized_inv body Hauth) as (Hc & Hm & _).
  unfold POST. rewrite Hb in *. rewrite Hc, Hm. reflexivity.
Qed.

Lemma POST_unauthorized (body : RequestBody) :
  authorized body = false →
  POST io body =
    rounds io 2 (confirmed body)
      {| l_booking := body_booking body;
         l_conversation :=
           SystemPrompt (default ∅ (body_booking body)) :: map Chat (messages body);
         l_toolTrace := [] |}.
Proof.
  rewrite authorized_eq, andb_false_iff.
  intros Hauth. unfold POST.
  destruct (body_booking body) as [booking|]; [| reflexivity].
  destruct Hauth as [Hc | Hm%bool_decide_eq_false_1].
  - rewrite Hc. reflexivity.
  - destruct (getMissingFields (Some booking)); [by destruct Hm |].
    rewrite andb_false_r. reflexivity.
Qed.

Lemma finalize_run (booking : Draft) (st : TurnState W) :
  finalize io booking st =
    match store_answer io (mutation_for booking) (world st) with
    | (inr result, w') =>
        (Returned
           {| message := "Your booking has been confirmed.";
              booking := Some result;
              toolTrace :=
                [ {| name := match mutation_for booking with
                             | UpdateBooking _ _ => "update_booking"
                             | _ => "create_booking"
                             end;
                     payload :=
                       match booking !! "id" with
                       | Some (JStr id) =>
                           JObj (<["id" := JStr id]>
                                   {["patch" := JObj (delete "id" booking)]})
                       | _ => JObj {["payload" := JObj booking]}
                       end;
                     result := Some result;
                     error := None |} ] |},
         {| world := w'; issued := issued st ++ [mutation_for booking] |})
    | (inl e, w') =>
        (Returned
           {| message := "I couldn't finalize the booking. Please try again.";
              booking := Some booking;
              toolTrace :=
                [ {| name := match mutation_for booking with
                             | UpdateBooking _ _ => "update_booking"
                             | _ => "create_booking"
                             end;
                     payload := JObj booking;
                     result := None;
                     error := Some (error_message e) |} ] |},
         {| world := w'; issued := issued st ++ [mutation_for booking] |})
    end.
Proof.
  unfold finalize, mutation_for, is_string, store_answer. run_turn.
  cbv [world issued].
  destruct (booking !! "id") as [[| b | n | id | items | props]|].
  all: match goal with
       | |- context [createBooking io ?p ?w] => destruct (createBooking io p w) as [[e | r] w']
       | |- context [updateBooking io ?i ?p ?w] => destruct (updateBooking io i p w) as [[e | r] w']
       end; reflexivity.
Qed.

(** *** How the loop runs *)

Lemma dispatch_run (toolCall : ToolCall) (args : Draft) (st : TurnState W) :
  dispatch io toolCall args st =
    match proposed_call toolCall args with
    | Some c =>
        match store_answer io c (world st) with
        | (inr result, w') =>
            (Returned (Some result), {| world := w'; issued := issued st ++ [c] |})
        | (inl e, w') => (Escaped e, {| world := w'; issued := issued st ++ [c] |})
        end
    | None => (Returned None, st)
    end.
Proof.
  unfold dispatch, proposed_call, store_answer. run_turn. cbv [world issued].
  destruct (String.eqb (function_name toolCall) "create_booking").
  { by destruct (createBooking io _ _) as [[e | r] w']. }
  destruct (String.eqb (function_name toolCall) "update_booking").
  { by destruct (updateBooking io _ _ _) as [[e | r] w']. }
  destruct (String.eqb (function_name toolCall) "get_booking").
  { by destruct (getBooking io _ _) as [[e | r] w']. }
  reflexivity.
Qed.

Lemma run_tool_calls_nil (c : bool) (vars : Locals) (st : TurnState W) :
  run_tool_calls io c [] vars st = (Returned (inr vars), st).
Proof. reflexivity. Qed.

Lemma run_tool_calls_cons (c : bool) (toolCall : ToolCall) (rest : list ToolCall)
    (vars : Locals) (st : TurnState W) :
  run_tool_calls io c (toolCall :: rest) vars st =
    match function_arguments toolCall with
    | ArgumentsMalformed syntax_error => (Escaped syntax_error, st)
    | ArgumentsObject args =>
        if negb c && names_mutation toolCall
        then (Returned (inl (say_confirm vars)), st)
        else
          match dispatch io toolCall args st with
          | (Returned result, st') =>
              run_tool_calls io c rest (record_attempt toolCall args vars (inr result)) st'
          | (Escaped e, st') =>
              run_tool_calls io c rest (record_attempt toolCall args vars (inl e)) st'
          end
    end.
Proof.
  cbn [run_tool_calls]. unfold parse_arguments. run_turn.
  destruct (function_arguments toolCall) as [e | args]; [reflexivity |].
  destruct (negb c && names_mutation toolCall); [reflexivity |].
  by destruct (dispatch io toolCall args st) as [[result | e] st'].
Qed.

Lemma rounds_O (c : bool) (vars : Locals) (st : TurnState W) :
  rounds io 0 c vars st =
    (Returned {| message := "Let's continue the booking details.";
                 booking := l_booking vars;
                 toolTrace := l_toolTrace vars |}, st).
Proof. reflexivity. Qed.

Lemma rounds_S (left : nat) (c : bool) (vars : Locals) (st : TurnState W) :
  rounds io (S left) c vars st =
    match chat_completions_create io (l_conversation vars) (world st) with
    | (inl e, w1) => (Escaped e, {| world := w1; issued := issued st |})
    | (inr choice, w1) =>
        let st1 := {| world := w1; issued := issued st |} in
        match tool_calls choice with
        | [] => (Returned (informational_reply choice vars), st1)
        | _ :: _ =>
            match run_tool_calls io c (tool_calls choice) vars st1 with
            | (Returned (inl response), st2) => (Returned response, st2)
            | (Returned (inr vars'), st2) => rounds io left c vars' st2
            | (Escaped e, st2) => (Escaped e, st2)
            end
        end
    end.
Proof.
  cbn [rounds]. run_turn.
  destruct (chat_completions_create io (l_conversation vars) (world st))
    as [[e | choice] w1]; [reflexivity |].
  destruct (tool_calls choice) as [| toolCall rest]; [reflexivity |].
  by destruct (run_tool_calls io c (toolCall :: rest) vars _) as [[[response | vars'] | e] st2].
Qed.

(** *** The record-store calls of a turn *)

Lemma names_mutation_false (toolCall : ToolCall) (args : Draft) (call : StoreCall) :
  names_mutation toolCall = false →
  proposed_call toolCall args = Some call →
  is_mutation call = false.
Proof.
  unfold names_mutation, proposed_call. intros Hname.
  apply not_true_iff_false in Hname. rewrite Array_includes_true in Hname.
  destruct (String.eqb_spec (function_name toolCall) "create_booking") as [Heq | _].
  { destruct Hname. rewrite Heq. set_solver. }
  destruct (String.eqb_spec (function_name toolCall) "update_booking") as [Heq | _].
  { destruct Hname. rewrite Heq. set_solver. }
  destruct (String.eqb (function_name toolCall) "get_booking"); [| discriminate].
  by intros [= <-].
Qed.

Lemma dispatch_issued (toolCall : ToolCall) (args : Draft) (st : TurnState W) :
  issued (dispatch io toolCall args st).2
  = issued st ++ match proposed_call toolCall args with
                 | Some call => [call]
                 | None => []
                 end.
Proof.
  rewrite dispatch_run.
  destruct (proposed_call toolCall args) as [call|]; [| by rewrite app_nil_r].
  by destruct (store_answer io call (world st)) as [[e | r] w'].
Qed.

Lemma run_tool_calls_issued (c : bool) (calls : list ToolCall) (vars : Locals)
    (st : TurnState W) :
  ∃ extra,
    issued (run_tool_calls io c calls vars st).2 = issued st ++ extra
    ∧ Forall (from_tool_call c calls) extra.
Proof.
  revert vars st. induction calls as [| toolCall rest IH]; intros vars st.
  { exists []. by rewrite run_tool_calls_nil, app_nil_r. }
  rewrite run_tool_calls_cons.
  destruct (function_arguments toolCall) as [e | args] eqn:Hargs.
  { exists []. by rewrite app_nil_r. }
  destruct (negb c && names_mutation toolCall) eqn:Hgate.
  { exists []. by rewrite app_nil_r. }
  pose proof (dispatch_issued toolCall args st) as Hissued.
  assert (Hmine : Forall (from_tool_call c (toolCall :: rest))
                    (match proposed_call toolCall args with
                     | Some call => [call]
                     | None => []
                     end)).
  { destruct (proposed_call toolCall args) as [call|] eqn:Hcall; constructor; [| constructor].
    exists toolCall, args. split_and!; [by left | done | done |].
    intros ->. exact Hgate. }
  assert (Hrest : ∀ extra, Forall (from_tool_call c rest) extra →
                           Forall (from_tool_call c (toolCall :: rest)) extra).
  { intros extra Hall. eapply Forall_impl; [exact Hall |].
    intros call (tc & a & Hin & Ha & Hp & Hc). exists tc, a.
    split_and!; [by right | done..]. }
  destruct (dispatch io toolCall args st) as [[result | e] st'];
    simpl in Hissued;
    match goal with
    | |- context [run_tool_calls io c rest ?v st'] =>
        destruct (IH v st') as (extra & Hextra & Hall)
    end;
    eexists; (split; [rewrite Hextra, Hissued, <- app_assoc; reflexivity |]);
    apply Forall_app; auto.
Qed.

Lemma from_tool_call_proposed (c : bool) (conversation : list ConversationMessage)
    (w w' : W) (choice : Completion) (call : StoreCall) :
  chat_completions_create io conversation w = (inr choice, w') →
  from_tool_call c (tool_calls choice) call →
  proposed_by_model io call ∧ (c = false → is_mutation call = false).
Proof.
  intros Hcreate (toolCall & args & Hin & Hargs & Hcall & Hc). split.
  - by exists conversation, w, choice, w', toolCall, args.
  - intros Hfalse. eapply names_mutation_false; eauto.
Qed.

Lemma rounds_issued (left : nat) (c : bool) (vars : Locals) (st : TurnState W) :
  ∃ extra,
    issued (rounds io left c vars st).2 = issued st ++ extra
    ∧ Forall (fun call => proposed_by_model io call
                          ∧ (c = false → is_mutation call = false)) extra.
Proof.
  revert vars st. induction left as [| left IH]; intros vars st.
  { exists []. by rewrite rounds_O, app_nil_r. }
  rewrite rounds_S.
  destruct (chat_completions_create io (l_conversation vars) (world st))
    as [[e | choice] w1] eqn:Hcreate.
  { exists []. by rewrite app_nil_r. }
  cbv zeta.
  destruct (tool_calls choice) as [| toolCall rest] eqn:Hcalls.
  { exists []. by rewrite app_nil_r. }
  destruct (run_tool_calls_issued c (toolCall :: rest) vars
              {| world := w1; issued := issued st |}) as (extra & Hextra & Hall).
  assert (Hall' : Forall (fun call => proposed_by_model io call
                                      ∧ (c = false → is_mutation call = false)) extra).
  { eapply Forall_impl; [exact Hall |]. intros call Hcall.
    eapply from_tool_call_proposed; [exact Hcreate |]. by rewrite Hcalls. }
  destruct (run_tool_calls io c (toolCall :: rest) vars _)
    as [[[response | vars'] | e] st2]; simpl in Hextra.
  - by exists extra.
  - destruct (IH vars' st2) as (extra' & Hextra' & Hall2).
    exists (extra ++ extra'). split.
    + by rewrite Hextra', Hextra, <- app_assoc.
    + by apply Forall_app.
  - by exists extra.
Qed.

(** *** The authorized turn *)

Lemma authorized_intro (body : RequestBody) (booking : Draft) :
  confirmed body = true → body_booking body = Some booking →
  getMissingFields (Some booking) = [] →
  authorized body = true.
Proof.
  intros Hc Hb Hm. rewrite authorized_eq, Hc, Hb, Hm. reflexivity.
Qed.

Lemma is_mutation_mutation_for (booking : Draft) :
  is_mutation (mutation_for booking) = true.
Proof.
  unfold mutation_for. by destruct (booking !! "id") as [[| | | | |]|].
Qed.

(** C7. In an authorized turn (the confirmation token is present and the
    draft is complete) exactly one record-store call is issued: an update
    whose patch is the draft without its [id] when the draft has a string
    [id], a create with the full draft otherwise; when the call succeeds
    the draft returned is what the store returned and the reply is the
    confirmation message. *)
Theorem authorized_turn_mutates_once (body : RequestBody) (booking : Draft) (w : W) :
  confirmed body = true →
  body_booking body = Some booking →
  getMissingFields (Some booking) = [] →
  let mutation :=
    match booking !! "id" with
    | Some (JStr id) =>
        UpdateBooking (Some (JStr id)) (Some (JObj (delete "id" booking)))
    | _ => CreateBooking (Some (JObj booking))
    end in
  issued (turn io body w).2 = [mutation]
  ∧ ∀ stored w',
      store_answer io mutation w = (inr stored, w') →
      ∃ entry,
        (turn io body w).1
        = Returned {| message := "Your booking has been confirmed.";
                      booking := Some stored;
                      toolTrace := [entry] |}
        ∧ result entry = Some stored
        ∧ error entry = None.
Proof.
  intros Hc Hb Hm mutation.
  assert (mutation = mutation_for booking) as -> by reflexivity.
  unfold turn. rewrite (POST_authorized body booking) by eauto using authorized_intro.
  rewrite finalize_run. cbn [world issued].
  destruct (store_answer io (mutation_for booking) w) as [[e | r] w1]; split;
    try reflexivity.
  - intros stored w' [=].
  - intros stored w' [= <- <-]. eexists. split_and!; reflexivity.
Qed.

(** C5. When the record-store call of an authorized turn fails, the turn
    still returns: with the draft it was given, with an action trace whose
    one entry is the failure with the message of the error, and with the
    generic failure reply; the failed call is the only call issued. *)
Theorem failed_mutation_keeps_the_draft (body : RequestBody) (booking : Draft)
    (w w' : W) (e : Thrown) :
  confirmed body = true →
  body_booking body = Some booking →
  getMissingFields (Some booking) = [] →
  store_answer io (mutation_for booking) w = (inl e, w') →
  ∃ entry,
    turn io body w
    = (Returned {| message := "I couldn't finalize the booking. Please try again.";
                   booking := Some booking;
                   toolTrace := [entry] |},
       {| world := w'; issued := [mutation_for booking] |})
    ∧ error entry = Some (error_message e)
    ∧ result entry = None
    ∧ ∀ text, e = JsError text → error entry = Some text.
Proof.
  intros Hc Hb Hm Hfail.
  unfold turn. rewrite (POST_authorized body booking) by eauto using authorized_intro.
  rewrite finalize_run. cbn [world issued]. rewrite Hfail.
  eexists. split_and!; try reflexivity.
  by intros text ->.
Qed.

(** *** The gate on mutations *)

Lemma turn_unauthorized (body : RequestBody) (w : W) :
  authorized body = false →
  turn io body w =
    rounds io 2 (confirmed body)
      {| l_booking := body_booking body;
         l_conversation :=
           SystemPrompt (default ∅ (body_booking body)) :: map Chat (messages body);
         l_toolTrace := [] |}
      {| world := w; issued := [] |}.
Proof. intros Hauth. unfold turn. by rewrite POST_unauthorized. Qed.

Lemma unconfirmed_unauthorized (body : RequestBody) :
  confirmed body = false → authorized body = false.
Proof. intros Hc. by rewrite authorized_eq, Hc. Qed.

Lemma unconfirmed_issues_no_mutation (body : RequestBody) (w : W) :
  confirmed body = false →
  Forall (fun c => is_mutation c = false) (issued (turn io body w).2).
Proof.
  intros Hc. rewrite turn_unauthorized by by apply unconfirmed_unauthorized.
  destruct (rounds_issued 2 (confirmed body)
              {| l_booking := body_booking body;
                 l_conversation :=
                   SystemPrompt (default ∅ (body_booking body))
                   :: map Chat (messages body);
                 l_toolTrace := [] |}
              {| world := w; issued := [] |}) as (extra & -> & Hall).
  cbn [issued app]. eapply Forall_impl; [exact Hall |].
  intros call [_ Hmut]. by apply Hmut.
Qed.

(** C1, as the code has it. A mutating record-store call is issued only
    in a turn whose latest message contains the confirmation token. When
    the token is present and the draft has no missing field, the turn
    issues exactly one call, the mutation for the draft. When the token is
    present and a field is missing, the calls issued are those that the
    model proposes as tool calls, and a create or update that the first
    completion proposes first is issued. *)
Theorem mutation_gate (body : RequestBody) (w : W) :
  let calls := issued (turn io body w).2 in
  (confirmed body = false → Forall (fun c => is_mutation c = false) calls)
  ∧ (authorized body = true →
     ∃ booking, body_booking body = Some booking
                ∧ calls = [mutation_for booking]
                ∧ is_mutation (mutation_for booking) = true)
  ∧ (authorized body = false → Forall (proposed_by_model io) calls)
  ∧ (confirmed body = true → authorized body = false →
     ∀ choice w1 toolCall rest args call,
       chat_completions_create io
         (SystemPrompt (default ∅ (body_booking body)) :: map Chat (messages body)) w
       = (inr choice, w1) →
       tool_calls choice = toolCall :: rest →
       function_arguments toolCall = ArgumentsObject args →
       proposed_call toolCall args = Some call →
       call ∈ calls).
Proof.
  cbv zeta. split_and!.
  - apply unconfirmed_issues_no_mutation.
  - intros Hauth.
    destruct (authorized_inv body Hauth) as (_ & _ & booking & Hb).
    exists booking. split_and!; [done | | apply is_mutation_mutation_for].
    unfold turn. rewrite (POST_authorized body booking) by done.
    rewrite finalize_run. cbn [world issued].
    by destruct (store_answer io (mutation_for booking) w) as [[e | r] w1].
  - intros Hauth. rewrite turn_unauthorized by done.
    destruct (rounds_issued 2 (confirmed body)
                {| l_booking := body_booking body;
                   l_conversation :=
                     SystemPrompt (default ∅ (body_booking body))
                     :: map Chat (messages body);
                   l_toolTrace := [] |}
                {| world := w; issued := [] |}) as (extra & -> & Hall).
    cbn [issued app]. eapply Forall_impl; [exact Hall |].
    by intros call [Hprop _].
  - intros Hc Hauth choice w1 toolCall rest args call Hcreate Hcalls Hargs Hcall.
    rewrite turn_unauthorized by done. rewrite Hc, rounds_S.
    cbn [l_conversation world issued]. rewrite Hcreate. cbv zeta. rewrite Hcalls.
    rewrite run_tool_calls_cons, Hargs. cbn [negb andb].
    pose proof (dispatch_issued toolCall args {| world := w1; issued := [] |}) as Hd.
    rewrite Hcall in Hd. cbn [issued app] in Hd.
    destruct (dispatch io toolCall args {| world := w1; issued := [] |})
      as [[stored | e] st1]; cbn [snd] in Hd.
    all: match goal with
         | |- context [run_tool_calls io true ?r ?v ?s] =>
             destruct (run_tool_calls_issued true r v s) as (extra & Hextra & _);
             destruct (run_tool_calls io true r v s) as [[[response | vars'] | e'] st2]
         end; cbn [snd] in Hextra.
    all: cbn [snd]; try (rewrite Hextra, Hd; set_solver).
    all: match goal with
         | |- context [rounds io 1 true ?v ?s] =>
             destruct (rounds_issued 1 true v s) as (extra' & -> & _)
         end; rewrite Hextra, Hd; set_solver.
Qed.

Lemma run_tool_calls_app (c : bool) (before after : list ToolCall) (vars : Locals)
    (st : TurnState W) :
  run_tool_calls io c (before ++ after) vars st =
    match run_tool_calls io c before vars st with
    | (Returned (inr vars'), st') => run_tool_calls io c after vars' st'
    | other => other
    end.
Proof.
  revert vars st. induction before as [| toolCall before IH]; intros vars st.
  { by rewrite run_tool_calls_nil. }
  rewrite <- app_comm_cons, !run_tool_calls_cons.
  destruct (function_arguments toolCall) as [e | args]; [reflexivity |].
  destruct (negb c && names_mutation toolCall); [reflexivity |].
  destruct (dispatch io toolCall args st) as [[stored | e] st']; apply IH.
Qed.

(** C6, as the code has it. In a turn whose latest message lacks the
    confirmation token no mutating record-store call is issued, and the
    turn is the loop of at most two completions; when, in an iteration of
    that loop, the tool calls of the completion reach one that names
    [create_booking] or [update_booking] and whose arguments parse, the
    turn ends there with the reply that asks to say confirm, with the
    draft and the action trace as they are at that point and without a
    further record-store call. *)
Theorem unconfirmed_mutation_is_refused (body : RequestBody) (w : W) :
  confirmed body = false →
  Forall (fun c => is_mutation c = false) (issued (turn io body w).2)
  ∧ turn io body w =
      rounds io 2 false
        {| l_booking := body_booking body;
           l_conversation :=
             SystemPrompt (default ∅ (body_booking body)) :: map Chat (messages body);
           l_toolTrace := [] |}
        {| world := w; issued := [] |}
  ∧ ∀ left vars st choice w1 before toolCall after args vars' st',
      chat_completions_create io (l_conversation vars) (world st) = (inr choice, w1) →
      tool_calls choice = before ++ toolCall :: after →
      names_mutation toolCall = true →
      function_arguments toolCall = ArgumentsObject args →
      run_tool_calls io false before vars {| world := w1; issued := issued st |}
      = (Returned (inr vars'), st') →
      rounds io (S left) false vars st
      = (Returned
           {| message := "I have the booking summary ready. Please say confirm to proceed.";
              booking := l_booking vars';
              toolTrace := l_toolTrace vars' |},
         st').
Proof.
  intros Hc. split_and!.
  - by apply unconfirmed_issues_no_mutation.
  - rewrite turn_unauthorized by by apply unconfirmed_unauthorized. by rewrite Hc.
  - intros left vars st choice w1 before toolCall after args vars' st'
      Hcreate Hcalls Hname Hargs Hbefore.
    rewrite rounds_S, Hcreate. cbv zeta. rewrite Hcalls.
    destruct (before ++ toolCall :: after) as [| first others] eqn:Hlist.
    { by destruct before. }
    rewrite <- Hlist, run_tool_calls_app, Hbefore, run_tool_calls_cons, Hargs, Hname.
    reflexivity.
Qed.

(** *** The informational reply *)

Lemma required_fields_labelled :
  Forall (fun field => is_Some (FIELD_LABELS !! field)) REQUIRED_FIELDS.
Proof.
  apply Forall_forall. intros field Hin.
  repeat (apply elem_of_cons in Hin as [-> | Hin]; [by vm_compute; eexists |]).
  by apply elem_of_nil in Hin.
Qed.

Lemma label_text_required (field : string) :
  field ∈ REQUIRED_FIELDS → label_text field = human_label field.
Proof.
  intros Hin. unfold label_text, human_label.
  pose proof required_fields_labelled as Hall.
  rewrite Forall_forall in Hall. by destruct (Hall field Hin) as [label ->].
Qed.

Lemma getMissingFields_required (draft : option Draft) (field : string) :
  field ∈ getMissingFields draft → field ∈ REQUIRED_FIELDS.
Proof. intros Hin. by apply getMissingFields_elem in Hin as [? _]. Qed.

(** The prompt for the missing fields of a draft: one line for each of
    them, in their order, with the label of the catalog. *)
Lemma buildMissingMessage_labels (draft : option Draft) :
  buildMissingMessage (getMissingFields draft) draft
  = prompt_prefix draft +:+ " To complete it, please provide:"
    +:+ String "010"
          (join (String "010" "")
             (map (fun field => "- " +:+ human_label field) (getMissingFields draft))).
Proof.
  unfold buildMissingMessage. cbv zeta.
  replace (map (fun field => "- " +:+ label_text field) (getMissingFields draft))
    with (map (fun field => "- " +:+ human_label field) (getMissingFields draft));
    [reflexivity |].
  apply map_ext_in. intros field Hin%list_elem_of_In.
  by rewrite label_text_required by by eapply getMissingFields_required.
Qed.

(** C4, as the code has it. An iteration of the loop whose completion
    carries no tool call ends the turn with the informational reply: its
    draft is the draft with the fields of the model merged in and its
    action trace is unchanged. When the reply of the model carries a list
    of missing fields that is not empty, the text is the prompt for that
    list; otherwise, when the merged draft has a missing field, the text
    is the prompt that lists, in the order of the catalog, the label of
    each missing field of the merged draft, and when it has none, the text
    is the message of the model. *)
Theorem informational_reply_text (left : nat) (c : bool) (vars : Locals)
    (st : TurnState W) (choice : Completion) (w1 : W) :
  chat_completions_create io (l_conversation vars) (world st) = (inr choice, w1) →
  tool_calls choice = [] →
  let parsed := extractJson (default (NotJson "") (message_content choice)) in
  let merged := merged_draft (l_booking vars) parsed in
  ∃ reply,
    rounds io (S left) c vars st = (Returned reply, {| world := w1; issued := issued st |})
    ∧ booking reply = merged
    ∧ toolTrace reply = l_toolTrace vars
    ∧ match parsed_missing_fields parsed with
      | Some (field :: fields) =>
          message reply = buildMissingMessage (field :: fields) merged
      | _ =>
          (getMissingFields merged ≠ [] →
           message reply
           = prompt_prefix merged +:+ " To complete it, please provide:"
             +:+ String "010"
                   (join (String "010" "")
                      (map (fun field => "- " +:+ human_label field)
                         (getMissingFields merged))))
          ∧ (getMissingFields merged = [] →
             message reply = default "" (parsed_message parsed))
      end.
Proof.
  intros Hcreate Hcalls parsed merged.
  exists (informational_reply choice vars).
  rewrite rounds_S, Hcreate. cbv zeta. rewrite Hcalls.
  split_and!; try reflexivity.
  unfold informational_reply. fold parsed. cbv zeta.
  change (match parsed_draft parsed with
          | Some draft => Some (merge_draft (l_booking vars) draft)
          | None => l_booking vars
          end) with merged.
  cbn [message].
  assert (Hcomputed :
    (getMissingFields merged ≠ [] →
     (if (0 <? length (getMissingFields merged))%nat
      then buildMissingMessage (getMissingFields merged) merged
      else default "" (parsed_message parsed))
     = prompt_prefix merged +:+ " To complete it, please provide:"
       +:+ String "010"
             (join (String "010" "")
                (map (fun field => "- " +:+ human_label field)
                   (getMissingFields merged))))
    ∧ (getMissingFields merged = [] →
       (if (0 <? length (getMissingFields merged))%nat
        then buildMissingMessage (getMissingFields merged) merged
        else default "" (parsed_message parsed))
       = default "" (parsed_message parsed))).
  { split.
    - intros Hne. rewrite <- buildMissingMessage_labels.
      by destruct (getMissingFields merged).
    - by intros ->. }
  destruct (parsed_missing_fields parsed) as [[| field fields] |]; try exact Hcomputed.
  reflexivity.
Qed.

(** *** Turns that return *)

Lemma run_tool_calls_returns (c : bool) (calls : list ToolCall) (vars : Locals)
    (st : TurnState W) :
  Forall (fun toolCall => ∃ args, function_arguments toolCall = ArgumentsObject args)
    calls →
  ∃ after st', run_tool_calls io c calls vars st = (Returned after, st').
Proof.
  intros Hparse. revert vars st.
  induction Hparse as [| toolCall rest [args Hargs] _ IH]; intros vars st.
  { rewrite run_tool_calls_nil. eauto. }
  rewrite run_tool_calls_cons, Hargs.
  destruct (negb c && names_mutation toolCall); [eauto |].
  destruct (dispatch io toolCall args st) as [[stored | e] st']; apply IH.
Qed.

Lemma rounds_returns (left : nat) (c : bool) (vars : Locals) (st : TurnState W) :
  cooperative io →
  ∃ response st', rounds io left c vars st = (Returned response, st').
Proof.
  intros Hcoop. revert vars st. induction left as [| left IH]; intros vars st.
  { rewrite rounds_O. eauto. }
  rewrite rounds_S.
  destruct (Hcoop (l_conversation vars) (world st)) as (choice & w1 & -> & Hparse).
  cbv zeta. destruct (tool_calls choice) as [| toolCall rest] eqn:Hcalls; [eauto |].
  destruct (run_tool_calls_returns c (toolCall :: rest) vars
              {| world := w1; issued := issued st |} Hparse)
    as ([response | vars'] & st2 & ->); [eauto | apply IH].
Qed.

End TurnProperties.

(** C9. A null draft is the empty draft for [getMissingFields], which
    returns the 22 required fields in the order of the catalog; and a turn
    on a null draft returns a response whenever the completion endpoint
    resolves and the arguments of its tool calls parse. *)
Theorem null_draft_is_the_empty_draft :
  getMissingFields None = REQUIRED_FIELDS
  ∧ length REQUIRED_FIELDS = 22%nat
  ∧ getMissingFields None = getMissingFields (Some ∅)
  ∧ ∀ (W : Type) (io : Collaborators W) (rt : JsRuntime) (body : RequestBody) (w : W),
      body_booking body = None →
      cooperative io →
      ∃ response st, turn io body w = (Returned response, st).
Proof.
  split_and!; [by vm_compute.. |].
  intros W io rt body w Hnull Hcoop.
  rewrite turn_unauthorized.
  - by apply rounds_returns.
  - rewrite authorized_eq, Hnull, getMissingFields_None.
    apply andb_false_r.
Qed.

(** ** The scenarios *)

Import Scenarios.

(** An abbreviated month counts as missing, its full name does not. *)
Example abbreviated_month_is_missing :
  getMissingFields (Some (<["arrival_date_month" := JStr "Aug"]> complete_draft))
  = ["arrival_date_month"]
  ∧ getMissingFields (Some (<["arrival_date_month" := JStr " AUGUST "]> complete_draft))
    = [].
Proof. vm_compute. by split. Qed.

(** The first request of a conversation: the model extracts the hotel, and
    the reply asks for the 21 other fields in the order of the catalog. *)
Example first_request_lists_the_missing_fields :
  let reply :=
    response_of
      (turn scripted opening
         [answers {| parsed_message := Some "Welcome.";
                     parsed_draft := Some {[ "hotel" := JStr "Resort Hotel" ]};
                     parsed_missing_fields := None;
                     parsed_ready_to_confirm := Some false |}]) in
  (fun b => b ≫= lookup "hotel") <$> (booking <$> reply) = Some (Some (JStr "Resort Hotel"))
  ∧ message <$> reply
    = Some (buildMissingMessage (List.tl REQUIRED_FIELDS)
              (Some {[ "hotel" := JStr "Resort Hotel" ]})).
Proof. vm_compute. by split. Qed.

(** A confirmed complete draft is created once, and the draft returned
    carries the identifier that the store assigned. *)
Example confirmed_draft_is_created :
  let outcome := turn scripted confirmation [] in
  is_mutation <$> issued outcome.2 = [true]
  ∧ message <$> response_of outcome = Some "Your booking has been confirmed."
  ∧ (fun b => b ≫= lookup "id") <$> (booking <$> response_of outcome)
    = Some (Some (JStr "bk_1")).
Proof. vm_compute. by split_and!. Qed.

(** A country of three spaces passes the create validation and is
    reported missing once stored. *)
Example blank_country_is_accepted_then_missing :
  match post_bookings (store_create generated)
          (<["country" := JStr "   "]> complete_draft) with
  | DataReply created => getMissingFields (Some created) = ["country"]
  | ErrorReply _ _ _ => False
  end.
Proof. by vm_compute. Qed.

(** A month that names no calendar month is refused by the create
    endpoint with the error of [computeArrivalDate]. *)
Example abbreviated_month_is_refused :
  post_bookings (store_create generated)
    (<["arrival_date_month" := JStr "Aug"]> complete_draft)
  = ErrorReply 400 "INVALID_MONTH" "Invalid month name: Aug".
Proof. by vm_compute. Qed.

Lemma quiet_cooperative : cooperative quiet.
Proof. intros conversation w. eexists _, _. split; [reflexivity | constructor]. Qed.

Lemma null_draft_is_the_empty_draft_witness :
  ∃ response st, turn quiet opening tt = (Returned response, st).
Proof.
  destruct null_draft_is_the_empty_draft as (_ & _ & _ & Hturn).
  apply Hturn; [reflexivity | apply quiet_cooperative].
Defined.

Lemma authorized_turn_mutates_once_witness :
  confirmed confirmation = true
  ∧ getMissingFields (Some complete_draft) = []
  ∧ let mutation :=
      match complete_draft !! "id" with
      | Some (JStr id) =>
          UpdateBooking (Some (JStr id)) (Some (JObj (delete "id" complete_draft)))
      | _ => CreateBooking (Some (JObj complete_draft))
      end in
    issued (turn scripted confirmation []).2 = [mutation]
    ∧ ∀ stored w',
        store_answer scripted mutation [] = (inr stored, w') →
        ∃ entry,
          (turn scripted confirmation []).1
          = Returned {| message := "Your booking has been confirmed.";
                        booking := Some stored;
                        toolTrace := [entry] |}
          ∧ result entry = Some stored
          ∧ error entry = None.
Proof.
  assert (Hc : confirmed confirmation = true) by by vm_compute.
  assert (Hm : getMissingFields (Some complete_draft) = []) by by vm_compute.
  split_and!; [exact Hc | exact Hm |].
  exact (authorized_turn_mutates_once scripted confirmation complete_draft []
           Hc eq_refl Hm).
Defined.

Lemma failed_mutation_keeps_the_draft_witness :
  store_answer scripted (mutation_for persisted_draft) []
  = (inl (JsError "Booking not found"), [])
  ∧ ∃ entry,
      turn scripted confirmation_of_unknown []
      = (Returned {| message := "I couldn't finalize the booking. Please try again.";
                     booking := Some persisted_draft;
                     toolTrace := [entry] |},
         {| world := []; issued := [mutation_for persisted_draft] |})
      ∧ error entry = Some (error_message (JsError "Booking not found"))
      ∧ result entry = None
      ∧ ∀ text, JsError "Booking not found" = JsError text → error entry = Some text.
Proof.
  assert (Hc : confirmed confirmation_of_unknown = true) by by vm_compute.
  assert (Hm : getMissingFields (Some persisted_draft) = []) by by vm_compute.
  assert (Hfail : store_answer scripted (mutation_for persisted_draft) []
                  = (inl (JsError "Booking not found"), [])) by by vm_compute.
  split; [exact Hfail |].
  exact (failed_mutation_keeps_the_draft scripted confirmation_of_unknown
           persisted_draft [] [] (JsError "Booking not found") Hc eq_refl Hm Hfail).
Defined.

Lemma unconfirmed_mutation_is_refused_witness :
  confirmed approval = false
  ∧ Forall (fun c => is_mutation c = false)
      (issued (turn scripted approval [proposes_create complete_draft]).2)
  ∧ turn scripted approval [proposes_create complete_draft]
    = (Returned
         {| message := "I have the booking summary ready. Please say confirm to proceed.";
            booking := Some complete_draft;
            toolTrace := [] |},
       {| world := []; issued := [] |}).
Proof.
  assert (Hc : confirmed approval = false) by by vm_compute.
  destruct (unconfirmed_mutation_is_refused scripted approval
              [proposes_create complete_draft] Hc) as (Hnone & Hturn & Hloop).
  split_and!; [exact Hc | exact Hnone |].
  rewrite Hturn. etrans.
  { apply (Hloop 1%nat _ _ (proposes_create complete_draft) [] []
             {| id := "call_1";
                function_name := "create_booking";
                function_arguments :=
                  ArgumentsObject {[ "payload" := JObj complete_draft ]} |}
             [] {[ "payload" := JObj complete_draft ]});
      [reflexivity | reflexivity | by vm_compute | reflexivity | reflexivity]. }
  reflexivity.
Defined.

Lemma informational_reply_text_witness :
  ∃ reply,
    turn scripted opening [asks_for_meal]
    = (Returned reply, {| world := []; issued := [] |})
    ∧ booking reply = None
    ∧ toolTrace reply = []
    ∧ message reply = buildMissingMessage ["meal"] None.
Proof.
  assert (Hauth : authorized opening = false) by by vm_compute.
  rewrite (turn_unauthorized scripted opening [asks_for_meal] Hauth).
  exact (informational_reply_text scripted 1 (confirmed opening) _
           {| world := [asks_for_meal]; issued := [] |} asks_for_meal []
           eq_refl eq_refl).
Defined.

(** The turn of C1 in which the token is present and every field is
    missing: the gate is closed, and the create that the model proposes is
    issued all the same. *)
Lemma mutation_despite_missing_fields :
  isAuthorized (latestUser early_confirmation)
    (getMissingFields (body_booking early_confirmation)) = false
  ∧ confirmed early_confirmation = true
  ∧ getMissingFields (body_booking early_confirmation) = REQUIRED_FIELDS
  ∧ is_mutation <$> issued (turn scripted early_confirmation
                               [proposes_create complete_draft]).2
    = [true].
Proof. vm_compute. by split_and!. Qed.

(** The turn of C6 in which the model proposes a create while the draft
    lacks its meal plan, the token being present: the turn is not
    authorized, and yet the create reaches the record store and the reply
    is not the one that asks to say confirm. *)
Lemma unauthorized_mutation_reaches_the_store :
  authorized confirmation_without_meal = false
  ∧ getMissingFields (body_booking confirmation_without_meal) = ["meal"]
  ∧ names_mutation <$> tool_calls (proposes_create no_meal_draft) = [true]
  ∧ is_mutation <$> issued (turn scripted confirmation_without_meal
                               [proposes_create no_meal_draft]).2
    = [true]
  ∧ message <$> response_of (turn scripted confirmation_without_meal
                               [proposes_create no_meal_draft])
    = Some (buildMissingMessage ["meal"] (Some no_meal_draft))
  ∧ String.eqb (buildMissingMessage ["meal"] (Some no_meal_draft))
      "I have the booking summary ready. Please say confirm to proceed." = false.
Proof. vm_compute. by split_and!. Qed.

(** The informational turn of C4 in which the model names one missing
    field while the draft misses all 22: the reply lists the field of the
    model, not the missing fields of the draft. *)
Lemma model_list_replaces_missing_fields :
  issued (turn scripted opening [asks_for_meal]).2 = []
  ∧ (booking <$> response_of (turn scripted opening [asks_for_meal])) = Some None
  ∧ getMissingFields None = REQUIRED_FIELDS
  ∧ message <$> response_of (turn scripted opening [asks_for_meal])
    = Some (buildMissingMessage ["meal"] None)
  ∧ String.eqb (buildMissingMessage ["meal"] None)
      (buildMissingMessage (getMissingFields None) None) = false.
Proof. vm_compute. by split_and!. Qed.

(** C3. The create validation of the store accepts a booking whose meal
    plan is the empty string, the create succeeds, and the booking that it
    returns, fed back to [getMissingFields], has [meal] missing: the
    round trip does not hold on the code. *)
Theorem created_booking_misses_its_meal :
  bool_decide (is_Some (Zod.parse_object bookingCreateSchema no_meal_draft)) = true
  ∧ match post_bookings (store_create generated) no_meal_draft with
    | DataReply created =>
        created !! "id" = Some (JStr "bk_1")
        ∧ created !! "meal" = Some (JStr "")
        ∧ getMissingFields (Some created) = ["meal"]
    | ErrorReply _ _ _ => False
    end.
Proof.
  split.
  - vm_compute. reflexivity.
  - vm_compute. by split_and!.
Qed.

(** * Further properties *)

(** ** The draft validator *)

Lemma getMissingFields_Some (draft : Draft) :
  getMissingFields (Some draft) = List.filter (field_is_missing draft) REQUIRED_FIELDS.
Proof. reflexivity. Qed.

Lemma getMissingFields_filter (draft : option Draft) :
  getMissingFields draft
  = List.filter (field_is_missing (default ∅ draft)) REQUIRED_FIELDS.
Proof. reflexivity. Qed.

Lemma field_is_missing_lookup (d1 d2 : Draft) (field : string) :
  d1 !! field = d2 !! field → field_is_missing d1 field = field_is_missing d2 field.
Proof. intros Heq. by rewrite !field_is_missing_cases, Heq. Qed.

(** X1. [getMissingFields] reads the required fields only: two drafts
    that agree on them have the same missing fields, whatever other keys
    (an identifier, an agent, a timestamp) they hold. *)
Theorem getMissingFields_reads_required_fields (d1 d2 : Draft) :
  (∀ field, field ∈ REQUIRED_FIELDS → d1 !! field = d2 !! field) →
  getMissingFields (Some d1) = getMissingFields (Some d2).
Proof.
  intros Hagree. rewrite !getMissingFields_Some.
  apply List.filter_ext_in. intros field Hin%list_elem_of_In.
  apply field_is_missing_lookup. by apply Hagree.
Qed.

Lemma getMissingFields_reads_required_fields_witness :
  getMissingFields (Some (<["id" := JStr "bk_7"]> Scenarios.complete_draft))
  = getMissingFields (Some Scenarios.complete_draft).
Proof.
  apply getMissingFields_reads_required_fields.
  intros field Hin. apply lookup_insert_ne. intros <-.
  revert Hin. apply (bool_decide_eq_false_1 _). by vm_compute.
Defined.

Lemma filter_filter_andb {A} (p q : A → bool) (l : list A) :
  List.filter q (List.filter p l) = List.filter (fun x => p x && q x) l.
Proof.
  induction l as [| x l IH]; [reflexivity |]. simpl.
  destruct (p x); simpl; [destruct (q x) |]; by rewrite IH.
Qed.

Lemma merge_draft_lookup (booking : option Draft) (delta : Draft) (key : string) :
  merge_draft booking delta !! key
  = match delta !! key with
    | Some value => Some value
    | None => default ∅ booking !! key
    end.
Proof.
  unfold merge_draft. rewrite lookup_union.
  destruct (delta !! key), (default ∅ booking !! key); done.
Qed.

(** X2. Merging a field delta changes the status of no field that the
    delta does not define: such a field is missing after the merge exactly
    when it was missing before. *)
Theorem merge_keeps_other_fields (booking : option Draft) (delta : Draft)
    (field : string) :
  delta !! field = None →
  field ∈ getMissingFields (Some (merge_draft booking delta))
  ↔ field ∈ getMissingFields booking.
Proof.
  intros Hnone. rewrite getMissingFields_Some, getMissingFields_filter.
  rewrite !list_elem_of_In, !List.filter_In.
  rewrite (field_is_missing_lookup (merge_draft booking delta) (default ∅ booking));
    [done |].
  by rewrite merge_draft_lookup, Hnone.
Qed.

Lemma merge_keeps_other_fields_witness :
  "meal" ∈ getMissingFields
             (Some (merge_draft (Some Scenarios.no_meal_draft) {[ "adults" := JNum 3 ]}))
  ↔ "meal" ∈ getMissingFields (Some Scenarios.no_meal_draft).
Proof. apply merge_keeps_other_fields. by vm_compute. Defined.

(** X3. When every value of a field delta is acceptable for its field,
    merging the delta removes from the list of missing fields exactly the
    fields that the delta defines, and keeps the others in their order. *)
Theorem merge_of_acceptable_values (booking : option Draft) (delta : Draft) :
  (∀ field value, delta !! field = Some value → acceptable field value = true) →
  getMissingFields (Some (merge_draft booking delta))
  = List.filter (fun field => bool_decide (delta !! field = None))
      (getMissingFields booking).
Proof.
  intros Hok. rewrite getMissingFields_Some, getMissingFields_filter.
  rewrite filter_filter_andb. apply List.filter_ext. intros field.
  destruct (delta !! field) as [value |] eqn:Hv.
  - rewrite bool_decide_eq_false_2 by done. rewrite andb_false_r.
    specialize (Hok field value Hv). unfold acceptable in Hok.
    apply negb_true_iff in Hok. rewrite <- Hok.
    apply field_is_missing_lookup.
    by rewrite merge_draft_lookup, Hv, lookup_singleton_eq.
  - rewrite bool_decide_eq_true_2 by done. rewrite andb_true_r.
    apply field_is_missing_lookup. by rewrite merge_draft_lookup, Hv.
Qed.

Lemma merge_of_acceptable_values_witness :
  getMissingFields (Some (merge_draft None {[ "hotel" := JStr "City Hotel" ]}))
  = List.filter (fun field => bool_decide
                                (({[ "hotel" := JStr "City Hotel" ]} : Draft) !! field = None))
      (getMissingFields None).
Proof.
  apply merge_of_acceptable_values.
  intros field value [<- <-]%lookup_singleton_Some. by vm_compute.
Defined.

Lemma required_fields_distinct : NoDup REQUIRED_FIELDS.
Proof. apply (bool_decide_eq_true_1 _). by vm_compute. Qed.

(** X4. No field is reported twice, and at most the 22 fields of the
    catalog are reported. *)
Theorem getMissingFields_distinct (draft : option Draft) :
  NoDup (getMissingFields draft) ∧ (length (getMissingFields draft) ≤ 22)%nat.
Proof.
  pose proof (filter_sublist (field_is_missing (default ∅ draft)) REQUIRED_FIELDS)
    as Hsub.
  split.
  - exact (sublist_NoDup _ _ required_fields_distinct Hsub).
  - apply sublist_length in Hsub. exact Hsub.
Qed.

(** ** The confirmation token *)

Lemma toLowerCase_app (a b : string) :
  toLowerCase (a +:+ b) = toLowerCase a +:+ toLowerCase b.
Proof. induction a as [| c a IH]; [reflexivity |]. simpl. by rewrite IH. Qed.

Lemma prefix_app (needle rest : string) : String.prefix needle (needle +:+ rest) = true.
Proof.
  induction needle as [| c needle IH]; simpl; [by destruct rest |].
  destruct (ascii_dec c c); [exact IH | done].
Qed.

Lemma includes_prefix (s needle : string) :
  String.prefix needle s = true → includes s needle = true.
Proof. intros Hp. destruct s; cbn [includes]; by rewrite Hp. Qed.

Lemma includes_here (needle rest : string) : includes (needle +:+ rest) needle = true.
Proof. apply includes_prefix, prefix_app. Qed.

Lemma includes_cons (c : ascii) (s needle : string) :
  includes (String c s) needle
  = String.prefix needle (String c s) || includes s needle.
Proof. reflexivity. Qed.

Lemma includes_later (before s needle : string) :
  includes s needle = true → includes (before +:+ s) needle = true.
Proof.
  intros Hs. induction before as [| c before IH]; [exact Hs |].
  change (String c before +:+ s) with (String c (before +:+ s)).
  rewrite includes_cons, IH. apply orb_true_r.
Qed.

Lemma last_snoc_message (history : list ChatMessage) (m : ChatMessage) :
  last (history ++ [m]) = Some m.
Proof. apply last_snoc. Qed.

(** X5. The confirmation token is looked for in the last message of the
    history only, whatever its role and whatever the earlier messages say;
    it is found wherever it occurs in that message, inside a longer word
    too, and in any mix of upper and lower case; an empty history carries
    no token. *)
Theorem confirmation_is_read_from_the_last_message
    (history : list ChatMessage) (m : ChatMessage) (draft : option Draft) :
  confirmed {| messages := history ++ [m]; body_booking := draft |}
  = includes (toLowerCase (content m)) "confirm"
  ∧ (∀ before token after,
       content m = before +:+ token +:+ after →
       toLowerCase token = "confirm" →
       confirmed {| messages := history ++ [m]; body_booking := draft |} = true)
  ∧ confirmed {| messages := []; body_booking := draft |} = false.
Proof.
  assert (Hlast : confirmed {| messages := history ++ [m]; body_booking := draft |}
                  = includes (toLowerCase (content m)) "confirm").
  { unfold confirmed, latestUser. cbn [messages]. by rewrite last_snoc_message. }
  split_and!; [exact Hlast | | reflexivity].
  intros before token after Hcontent Htoken.
  rewrite Hlast, Hcontent, !toLowerCase_app, Htoken.
  apply includes_later, includes_here.
Qed.

(** ** The turn controller *)

Section MoreTurnProperties.
Context {W : Type} (io : Collaborators W) `{JsRuntime}.

Lemma authorized_cases (body : RequestBody) :
  (authorized body = true ∧ ∃ booking, body_booking body = Some booking)
  ∨ authorized body = false.
Proof.
  destruct (authorized body) eqn:Hauth; [left | by right].
  split; [done |]. by destruct (authorized_inv body Hauth) as (_ & _ & ?).
Qed.

Lemma cooperative_turn_returns (body : RequestBody) (w : W) :
  cooperative io →
  ∃ response st, turn io body w = (Returned response, st).
Proof.
  intros Hcoop.
  destruct (authorized_cases body) as [[Hauth [booking Hb]] | Hauth].
  - unfold turn. rewrite (POST_authorized io body booking Hauth Hb), finalize_run.
    destruct (store_answer io (mutation_for booking) _) as [[e | stored] w']; eauto.
  - rewrite (turn_unauthorized io body w Hauth). by apply rounds_returns.
Qed.


(** *** The draft is never dropped *)

Lemma run_tool_calls_keeps_a_draft (c : bool) (calls : list ToolCall)
    (vars : Locals) (st : TurnState W) :
  is_Some (l_booking vars) →
  match run_tool_calls io c calls vars st with
  | (Returned (inl response), _) => is_Some (booking response)
  | (Returned (inr vars'), _) => is_Some (l_booking vars')
  | (Escaped _, _) => True
  end.
Proof.
  revert vars st. induction calls as [| toolCall rest IH]; intros vars st Hsome.
  { by rewrite run_tool_calls_nil. }
  rewrite run_tool_calls_cons.
  destruct (function_arguments toolCall) as [e | args]; [done |].
  destruct (negb c && names_mutation toolCall); [done |].
  destruct (dispatch io toolCall args st) as [[stored | e] st']; apply IH.
  - by destruct stored.
  - done.
Qed.

Lemma informational_reply_keeps_a_draft (choice : Completion) (vars : Locals) :
  is_Some (l_booking vars) → is_Some (booking (informational_reply choice vars)).
Proof.
  intros Hsome. unfold informational_reply. cbn [booking].
  by destruct (parsed_draft _).
Qed.

Lemma rounds_keeps_a_draft (left : nat) (c : bool) (vars : Locals) (st : TurnState W) :
  is_Some (l_booking vars) →
  match rounds io left c vars st with
  | (Returned response, _) => is_Some (booking response)
  | (Escaped _, _) => True
  end.
Proof.
  revert vars st. induction left as [| left IH]; intros vars st Hsome.
  { by rewrite rounds_O. }
  rewrite rounds_S.
  destruct (chat_completions_create io _ _) as [[e | choice] w1]; [done |].
  cbv zeta. destruct (tool_calls choice) as [| toolCall rest].
  { by apply informational_reply_keeps_a_draft. }
  pose proof (run_tool_calls_keeps_a_draft c (toolCall :: rest) vars
                {| world := w1; issued := issued st |} Hsome) as Hloop.
  destruct (run_tool_calls io c (toolCall :: rest) vars _)
    as [[[response | vars'] | e] st2]; [done | by apply IH | done].
Qed.

(** X7. A turn never drops the draft: when the request carries a draft,
    every response of the route carries one too, through tool calls,
    failures and replies of the model alike. *)
Theorem draft_is_never_dropped (body : RequestBody) (w : W)
    (response : Response) (st : TurnState W) :
  is_Some (body_booking body) →
  turn io body w = (Returned response, st) →
  is_Some (booking response).
Proof.
  intros Hsome.
  destruct (authorized_cases body) as [[Hauth [draft Hb]] | Hauth].
  - unfold turn. rewrite (POST_authorized io body draft Hauth Hb), finalize_run.
    destruct (store_answer io (mutation_for draft) _) as [[e | stored] w'];
      by intros [= <- _].
  - rewrite (turn_unauthorized io body w Hauth).
    pose proof (rounds_keeps_a_draft 2 (confirmed body)
                  {| l_booking := body_booking body;
                     l_conversation :=
                       SystemPrompt (default ∅ (body_booking body))
                       :: map Chat (messages body);
                     l_toolTrace := [] |}
                  {| world := w; issued := [] |} Hsome) as Hrounds.
    intros Hturn. by rewrite Hturn in Hrounds.
Qed.

(** *** Every call is traced *)

Lemma record_attempt_traced (toolCall : ToolCall) (args : Draft) (vars : Locals)
    (attempt : Thrown + option Draft) (calls : list StoreCall) (extra : list StoreCall) :
  traced (l_toolTrace vars) calls →
  (length extra ≤ 1)%nat →
  traced (l_toolTrace (record_attempt toolCall args vars attempt)) (calls ++ extra).
Proof.
  intros [Hlen Hall] Hextra. unfold traced.
  destruct attempt as [e | stored]; cbn [record_attempt l_toolTrace].
  all: rewrite !length_app, Forall_app; cbn [length].
  all: split; [lia | split; [exact Hall |]].
  all: constructor; [| constructor].
  - by left.
  - by right.
Qed.

Lemma run_tool_calls_traced (c : bool) (calls : list ToolCall) (vars : Locals)
    (st : TurnState W) :
  traced (l_toolTrace vars) (issued st) →
  match run_tool_calls io c calls vars st with
  | (Returned (inl response), st') => traced (toolTrace response) (issued st')
  | (Returned (inr vars'), st') => traced (l_toolTrace vars') (issued st')
  | (Escaped _, _) => True
  end.
Proof.
  revert vars st. induction calls as [| toolCall rest IH]; intros vars st Htraced.
  { by rewrite run_tool_calls_nil. }
  rewrite run_tool_calls_cons.
  destruct (function_arguments toolCall) as [e | args]; [done |].
  destruct (negb c && names_mutation toolCall); [done |].
  pose proof (dispatch_issued io toolCall args st) as Hissued.
  assert (Hone : (length (match proposed_call toolCall args with
                          | Some call => [call]
                          | None => []
                          end) ≤ 1)%nat).
  { destruct (proposed_call toolCall args); cbn [length]; lia. }
  destruct (dispatch io toolCall args st) as [[stored | e] st'];
    cbn [snd] in Hissued; apply IH; rewrite Hissued;
    by apply record_attempt_traced.
Qed.

Lemma rounds_traced (left : nat) (c : bool) (vars : Locals) (st : TurnState W) :
  traced (l_toolTrace vars) (issued st) →
  match rounds io left c vars st with
  | (Returned response, st') => traced (toolTrace response) (issued st')
  | (Escaped _, _) => True
  end.
Proof.
  revert vars st. induction left as [| left IH]; intros vars st Htraced.
  { by rewrite rounds_O. }
  rewrite rounds_S.
  destruct (chat_completions_create io _ _) as [[e | choice] w1]; [done |].
  cbv zeta. destruct (tool_calls choice) as [| toolCall rest]; [done |].
  pose proof (run_tool_calls_traced c (toolCall :: rest) vars
                {| world := w1; issued := issued st |} Htraced) as Hloop.
  destruct (run_tool_calls io c (toolCall :: rest) vars _)
    as [[[response | vars'] | e] st2]; [done | by apply IH | done].
Qed.

(** X8. Every record-store call of a turn is traced: the action trace of
    a response has at least as many entries as record-store calls were
    issued, and no entry carries both a result and an error. *)
Theorem every_call_is_traced (body : RequestBody) (w : W)
    (response : Response) (st : TurnState W) :
  turn io body w = (Returned response, st) →
  (length (issued st) ≤ length (toolTrace response))%nat
  ∧ Forall (fun entry => result entry = None ∨ error entry = None)
      (toolTrace response).
Proof.
  destruct (authorized_cases body) as [[Hauth [draft Hb]] | Hauth].
  - unfold turn. rewrite (POST_authorized io body draft Hauth Hb), finalize_run.
    destruct (store_answer io (mutation_for draft) _) as [[e | stored] w'];
      intros [= <- <-]; cbn [toolTrace issued length app];
      (split; [lia | constructor; [| constructor]]).
    + by left.
    + by right.
  - rewrite (turn_unauthorized io body w Hauth).
    pose proof (rounds_traced 2 (confirmed body)
                  {| l_booking := body_booking body;
                     l_conversation :=
                       SystemPrompt (default ∅ (body_booking body))
                       :: map Chat (messages body);
                     l_toolTrace := [] |}
                  {| world := w; issued := [] |}) as Hrounds.
    intros Hturn. rewrite Hturn in Hrounds. apply Hrounds.
    split; [cbn; lia | constructor].
Qed.

(** *** At most two completions *)

Lemma store_answer_counting (c : StoreCall) (w : W) (n : nat) :
  store_answer (counting io) c (w, n)
  = ((store_answer io c w).1, ((store_answer io c w).2, n)).
Proof.
  destruct c as [p | i p | i];
    cbn [store_answer counting createBooking updateBooking getBooking fst snd].
  - by destruct (createBooking io p w).
  - by destruct (updateBooking io i p w).
  - by destruct (getBooking io i w).
Qed.

Lemma dispatch_counting (toolCall : ToolCall) (args : Draft) (n : nat)
    (st : TurnState W) :
  dispatch (counting io) toolCall args (counted n st)
  = ((dispatch io toolCall args st).1, counted n (dispatch io toolCall args st).2).
Proof.
  rewrite !dispatch_run.
  destruct (proposed_call toolCall args) as [call |]; [| reflexivity].
  cbn [counted world issued]. rewrite store_answer_counting.
  by destruct (store_answer io call (world st)) as [[e | stored] w'].
Qed.

Lemma run_tool_calls_counting (c : bool) (calls : list ToolCall) (vars : Locals)
    (n : nat) (st : TurnState W) :
  run_tool_calls (counting io) c calls vars (counted n st)
  = ((run_tool_calls io c calls vars st).1,
     counted n (run_tool_calls io c calls vars st).2).
Proof.
  revert vars st. induction calls as [| toolCall rest IH]; intros vars st.
  { by rewrite !run_tool_calls_nil. }
  rewrite !run_tool_calls_cons.
  destruct (function_arguments toolCall) as [e | args]; [reflexivity |].
  destruct (negb c && names_mutation toolCall); [reflexivity |].
  rewrite dispatch_counting.
  destruct (dispatch io toolCall args st) as [[stored | e] st']; apply IH.
Qed.

Lemma rounds_counting (left : nat) (c : bool) (vars : Locals) (n : nat)
    (st : TurnState W) :
  ∃ more, (more ≤ left)%nat
    ∧ rounds (counting io) left c vars (counted n st)
      = ((rounds io left c vars st).1,
         counted (n + more) (rounds io left c vars st).2).
Proof.
  revert vars n st. induction left as [| left IH]; intros vars n st.
  { exists 0%nat. rewrite !rounds_O, Nat.add_0_r. by split. }
  rewrite !rounds_S.
  cbn [counted world issued counting chat_completions_create fst snd].
  destruct (chat_completions_create io (l_conversation vars) (world st))
    as [[e | choice] w1].
  { exists 1%nat. split; [lia |]. by rewrite Nat.add_1_r. }
  cbv zeta. destruct (tool_calls choice) as [| toolCall rest].
  { exists 1%nat. split; [lia |]. by rewrite Nat.add_1_r. }
  change {| world := (w1, S n); issued := issued st |}
    with (counted (S n) {| world := w1; issued := issued st |}).
  rewrite run_tool_calls_counting.
  destruct (run_tool_calls io c (toolCall :: rest) vars _)
    as [[[response | vars'] | e] st2]; cbn [fst snd].
  - exists 1%nat. split; [lia |]. by rewrite Nat.add_1_r.
  - destruct (IH vars' (S n) st2) as (more & Hle & ->).
    exists (S more). split; [lia |]. by rewrite Nat.add_succ_r.
  - exists 1%nat. split; [lia |]. by rewrite Nat.add_1_r.
Qed.

(** X9. A turn asks the model for at most two completions, and an
    authorized turn for none: run with the completions counted, the turn
    has the outcome, the world and the record-store calls of the turn
    itself, and the count is at most two, zero when the turn is
    authorized. *)
Theorem completions_are_bounded (body : RequestBody) (w : W) :
  ∃ count,
    (count ≤ 2)%nat
    ∧ (authorized body = true → count = 0%nat)
    ∧ turn (counting io) body (w, 0%nat)
      = ((turn io body w).1, counted count (turn io body w).2).
Proof.
  destruct (authorized_cases body) as [[Hauth [draft Hb]] | Hauth].
  - exists 0%nat. split_and!; [lia | done |].
    unfold turn.
    rewrite (POST_authorized io body draft Hauth Hb),
      (POST_authorized (counting io) body draft Hauth Hb), !finalize_run.
    cbn [world issued]. rewrite store_answer_counting.
    by destruct (store_answer io (mutation_for draft) w) as [[e | stored] w'].
  - rewrite (turn_unauthorized io body w Hauth),
      (turn_unauthorized (counting io) body (w, 0%nat) Hauth).
    destruct (rounds_counting 2 (confirmed body)
                {| l_booking := body_booking body;
                   l_conversation :=
                     SystemPrompt (default ∅ (body_booking body))
                     :: map Chat (messages body);
                   l_toolTrace := [] |}
                0 {| world := w; issued := [] |}) as (more & Hle & Hrounds).
    exists more. split_and!; [done | congruence | exact Hrounds].
Qed.

(** X10. A tool call whose name is none of the three tools reaches no
    collaborator; it is traced as a call without result and without
    error, an empty tool message answers it in the conversation, and the
    draft is left as it is. *)
Theorem unknown_tool_is_traced_without_call (c : bool) (toolCall : ToolCall)
    (rest : list ToolCall) (args : Draft) (vars : Locals) (st : TurnState W) :
  function_arguments toolCall = ArgumentsObject args →
  function_name toolCall ∉ ["create_booking"; "update_booking"; "get_booking"] →
  run_tool_calls io c (toolCall :: rest) vars st
  = run_tool_calls io c rest
      {| l_booking := l_booking vars;
         l_conversation := l_conversation vars ++ [ToolResult (id toolCall) ∅];
         l_toolTrace :=
           l_toolTrace vars ++
             [ {| name := function_name toolCall;
                  payload := JObj args;
                  result := None;
                  error := None |} ] |}
      st.
Proof.
  intros Hargs Hname.
  assert (Hcreate : String.eqb (function_name toolCall) "create_booking" = false).
  { apply String.eqb_neq. intros Heq. apply Hname. rewrite Heq. repeat constructor. }
  assert (Hupdate : String.eqb (function_name toolCall) "update_booking" = false).
  { apply String.eqb_neq. intros Heq. apply Hname. rewrite Heq. repeat constructor. }
  assert (Hget : String.eqb (function_name toolCall) "get_booking" = false).
  { apply String.eqb_neq. intros Heq. apply Hname. rewrite Heq. repeat constructor. }
  assert (Hnot : names_mutation toolCall = false).
  { unfold names_mutation. apply not_true_iff_false.
    rewrite Array_includes_true.
    intros [Heq | [Heq | Hin%elem_of_nil]%elem_of_cons]%elem_of_cons;
      [| | done]; apply Hname; rewrite Heq; repeat constructor. }
  rewrite run_tool_calls_cons, Hargs, Hnot, andb_false_r, dispatch_run.
  unfold proposed_call. by rewrite Hcreate, Hupdate, Hget.
Qed.

End MoreTurnProperties.


Lemma draft_is_never_dropped_witness :
  is_Some (body_booking Scenarios.approval)
  ∧ ∃ response st,
      turn Scenarios.quiet Scenarios.approval tt = (Returned response, st)
      ∧ is_Some (booking response).
Proof.
  split; [by eexists |].
  destruct (cooperative_turn_returns Scenarios.quiet Scenarios.approval tt
              quiet_cooperative) as (response & st & Hturn).
  exists response, st. split; [exact Hturn |].
  exact (draft_is_never_dropped Scenarios.quiet Scenarios.approval tt response st
           (ex_intro _ _ eq_refl) Hturn).
Defined.

Lemma every_call_is_traced_witness :
  ∃ response st,
    turn Scenarios.quiet Scenarios.confirmation_of_unknown tt = (Returned response, st)
    ∧ (length (issued st) ≤ length (toolTrace response))%nat
    ∧ Forall (fun entry => result entry = None ∨ error entry = None)
        (toolTrace response).
Proof.
  destruct (cooperative_turn_returns Scenarios.quiet Scenarios.confirmation_of_unknown
              tt quiet_cooperative) as (response & st & Hturn).
  exists response, st. split; [exact Hturn |].
  exact (every_call_is_traced Scenarios.quiet Scenarios.confirmation_of_unknown tt
           response st Hturn).
Defined.

Lemma unknown_tool_is_traced_without_call_witness :
  let toolCall := {| id := "call_9";
                     function_name := "delete_booking";
                     function_arguments := ArgumentsObject ∅ |} in
  run_tool_calls Scenarios.quiet true [toolCall]
    {| l_booking := None; l_conversation := []; l_toolTrace := [] |}
    {| world := tt; issued := [] |}
  = run_tool_calls Scenarios.quiet true []
      {| l_booking := None;
         l_conversation := [] ++ [ToolResult "call_9" ∅];
         l_toolTrace :=
           [] ++ [ {| name := "delete_booking";
                      payload := JObj ∅;
                      result := None;
                      error := None |} ] |}
      {| world := tt; issued := [] |}.
Proof.
  apply (unknown_tool_is_traced_without_call Scenarios.quiet true
           {| id := "call_9";
              function_name := "delete_booking";
              function_arguments := ArgumentsObject ∅ |} [] ∅).
  - reflexivity.
  - apply (bool_decide_eq_false_1 _). by vm_compute.
Defined.

(** ** The booking API *)

Lemma parse_object_lookup (shape : list (string * Zod.Schema)) (body payload : Draft)
    (key : string) :
  Zod.parse_object shape body = Some payload →
  payload !! key = if bool_decide (key ∈ shape.*1) then body !! key else None.
Proof.
  unfold Zod.parse_object. destruct (forallb _ shape); [| done].
  intros [= <-]. rewrite map_lookup_filter.
  destruct (body !! key) as [value |] eqn:Hbody; cbn.
  - case_bool_decide as Hin.
    + by rewrite option_guard_True.
    + by rewrite option_guard_False.
  - by case_bool_decide.
Qed.


Lemma parse_object_accepts (shape : list (string * Zod.Schema)) (body payload : Draft)
    (key : string) (schema : Zod.Schema) :
  Zod.parse_object shape body = Some payload →
  (key, schema) ∈ shape →
  Zod.accepts schema (body !! key) = true.
Proof.
  unfold Zod.parse_object.
  destruct (forallb _ shape) eqn:Hall; [| done]. intros _ Hin.
  rewrite forallb_forall in Hall.
  apply (Hall (key, schema)). by apply list_elem_of_In.
Qed.



(** The status that goes with the code of an error envelope. *)
Lemma error_middleware_status (failure : Failure) :
  match Api.envelope (Api.error_middleware failure) with
  | Api.Data _ => False
  | Api.Error code _ =>
      (code, Api.status (Api.error_middleware failure))
      ∈ [ ("VALIDATION_ERROR", 400%nat); ("INVALID_MONTH", 400%nat);
          ("UNAUTHORIZED", 401%nat); ("NOT_FOUND", 404%nat);
          ("INTERNAL_ERROR", 500%nat) ]
  end.
Proof.
  destruct failure as [| [message |]]; cbn; [repeat constructor | | repeat constructor].
  destruct (String.prefix _ _); cbn; repeat constructor.
Qed.

Section ApiProperties.
Context {W : Type} (prisma : Api.Prisma W).

Ltac run_handler :=
  unfold Api.serve, Api.app, Api.handle, Api.post_booking, Api.get_booking,
    Api.patch_booking, Api.delete_booking, Api.query;
  cbn [Api.db Api.queries Api.route Api.x_api_key].

(** X11. Every reply of the API pairs its status with its envelope: a
    data envelope comes with 201 from the create route and with 200 from
    the others; an error envelope comes with the status of its code, 400
    for a validation error or an invalid month, 401 for a refused key,
    404 for a booking not found and 500 for the rest. *)
Theorem status_follows_the_envelope (apiKey : option string) (request : Api.Request)
    (w : W) :
  let reply := (Api.serve prisma apiKey request w).1 in
  match Api.envelope reply with
  | Api.Data _ =>
      Api.status reply
      = match Api.route request with
        | Api.PostBookings _ => 201%nat
        | _ => 200%nat
        end
  | Api.Error code _ =>
      (code, Api.status reply)
      ∈ [ ("VALIDATION_ERROR", 400%nat); ("INVALID_MONTH", 400%nat);
          ("UNAUTHORIZED", 401%nat); ("NOT_FOUND", 404%nat);
          ("INTERNAL_ERROR", 500%nat) ]
  end.
Proof.
  cbv zeta. destruct request as [header r]. run_handler.
  destruct (Api.apiKeyGuard apiKey header) as [refusal |] eqn:Hguard.
  { unfold Api.apiKeyGuard in Hguard.
    destruct apiKey as [[| c key] |]; try done.
    case_bool_decide; [done |]. injection Hguard as <-. cbn. repeat constructor. }
  destruct r as [body | id | id body | id].
  all: repeat match goal with
         | |- context [match ?x with _ => _ end] =>
             lazymatch x with
             | Api.envelope _ => fail
             | _ => destruct x
             end
         end.
  all: cbn [fst snd];
    try (match goal with
         | |- context [Api.error_middleware ?f] =>
             pose proof (error_middleware_status f) as Hst;
             destruct (Api.envelope (Api.error_middleware f)); [done | exact Hst]
         end).
  all: cbn; first [reflexivity | repeat constructor].
Qed.

Ltac no_such_query H :=
  repeat (apply elem_of_cons in H as [H | H]; [try discriminate H |]);
  try (by apply elem_of_nil in H).

(** X12. An update is sent only for a booking that the lookup of the
    same request has just found: the route is the patch or the delete of
    an identifier, the lookup of that identifier resolved to a booking
    that is not deleted, the update targets the identifier of that
    booking, and the request sends these two queries and no other. *)
Theorem updates_follow_a_lookup (apiKey : option string) (request : Api.Request)
    (w : W) (target : string) (data : Api.UpdateData) :
  Api.Update target data ∈ Api.queries (Api.serve prisma apiKey request w).2 →
  ∃ id existing w1,
    (Api.route request = Api.DeleteBooking id
     ∨ ∃ body, Api.route request = Api.PatchBooking id body)
    ∧ Api.findFirst prisma id w = (inr (Some existing), w1)
    ∧ target = string_of (existing !! "id")
    ∧ Api.queries (Api.serve prisma apiKey request w).2
      = [Api.FindFirst id; Api.Update target data].
Proof.
  destruct request as [header r]. run_handler.
  destruct (Api.apiKeyGuard apiKey header) as [refusal |].
  { intros Hin. no_such_query Hin. }
  destruct r as [body | id | id body | id]; cbn [fst snd Api.db Api.queries app].
  - destruct (Zod.parse_object bookingCreateSchema body);
      [| intros Hin; no_such_query Hin].
    destruct (computeArrivalDate _ _ _); [intros Hin; no_such_query Hin |].
    destruct (Api.create prisma _ _) as [[e | booking] w1];
      intros Hin; no_such_query Hin.
  - destruct (Api.findFirst prisma id _) as [[e | [existing |]] w1];
      intros Hin; no_such_query Hin.
  - destruct (Zod.parse_object Api.bookingPatchSchema body) as [patch |];
      [| intros Hin; no_such_query Hin].
    destruct (Api.findFirst prisma id w) as [[e | [existing |]] w1] eqn:Hfind;
      [intros Hin; no_such_query Hin | | intros Hin; no_such_query Hin].
    destruct (Api.patched_arrival_date patch existing) as [e | date];
      [intros Hin; no_such_query Hin |].
    destruct (Api.update prisma _ _ _) as [[e | booking] w2];
      cbn [Api.queries app]; intros Hin;
      (apply elem_of_cons in Hin as [Hin | Hin]; [discriminate Hin |]);
      (apply elem_of_cons in Hin as [Hin | Hin]; [| by apply elem_of_nil in Hin]);
      injection Hin as -> ->; exists id, existing, w1; eauto 10.
  - destruct (Api.findFirst prisma id w) as [[e | [existing |]] w1] eqn:Hfind;
      [intros Hin; no_such_query Hin | | intros Hin; no_such_query Hin].
    destruct (Api.update prisma _ _ _) as [[e | booking] w2];
      cbn [Api.queries app]; intros Hin;
      (apply elem_of_cons in Hin as [Hin | Hin]; [discriminate Hin |]);
      (apply elem_of_cons in Hin as [Hin | Hin]; [| by apply elem_of_nil in Hin]);
      injection Hin as -> ->; exists id, existing, w1; eauto 10.
Qed.

(** X13. A booking that the lookup does not find (unknown, or soft
    deleted) is answered 404 "Booking not found" by the read, the delete
    and the patch alike (the patch once its body has passed validation),
    after that one lookup and without any update. *)
Theorem missing_booking_is_not_found (id : string) (w w1 : W) :
  Api.findFirst prisma id w = (inr None, w1) →
  let not_found :=
    ({| Api.status := 404; Api.envelope := Api.Error "NOT_FOUND" "Booking not found" |},
     {| Api.db := w1; Api.queries := [Api.FindFirst id] |}) in
  Api.get_booking prisma id {| Api.db := w; Api.queries := [] |} = not_found
  ∧ Api.delete_booking prisma id {| Api.db := w; Api.queries := [] |} = not_found
  ∧ ∀ body,
      is_Some (Zod.parse_object Api.bookingPatchSchema body) →
      Api.patch_booking prisma id body {| Api.db := w; Api.queries := [] |} = not_found.
Proof.
  intros Hfind. cbv zeta. split_and!.
  - unfold Api.get_booking, Api.query. cbn [Api.db Api.queries app]. by rewrite Hfind.
  - unfold Api.delete_booking, Api.query. cbn [Api.db Api.queries app]. by rewrite Hfind.
  - intros body [patch Hparse].
    unfold Api.patch_booking, Api.query. cbn [Api.db Api.queries app].
    by rewrite Hparse, Hfind.
Qed.




Lemma unresolved_month_raises (month : string) (year day : Q) :
  resolves_month month = false →
  computeArrivalDate year month day = inl (JsError ("Invalid month name: " +:+ month)).
Proof.
  unfold resolves_month, computeArrivalDate. intros Hno.
  apply orb_false_iff in Hno as [Hmap Hinherited].
  apply bool_decide_eq_false_1 in Hmap.
  destruct (monthMap !! toLowerCase (trim month)) as [index |]; [by destruct Hmap |].
  by rewrite Hinherited.
Qed.

Lemma month_in_patch_schema : "arrival_date_month" ∈ Api.bookingPatchSchema.*1.
Proof. apply (bool_decide_eq_true_1 _). by vm_compute. Qed.

(** X15. A patch whose month does not resolve is refused with 400
    [INVALID_MONTH] and the message of [computeArrivalDate]. The refusal
    comes after the lookup of the booking and before any update: the
    lookup is the only query of the request. *)
Theorem patch_with_unknown_month_is_refused (id month : string)
    (body existing : Draft) (w w1 : W) :
  is_Some (Zod.parse_object Api.bookingPatchSchema body) →
  body !! "arrival_date_month" = Some (JStr month) →
  resolves_month month = false →
  Api.findFirst prisma id w = (inr (Some existing), w1) →
  Api.patch_booking prisma id body {| Api.db := w; Api.queries := [] |}
  = ({| Api.status := 400;
        Api.envelope := Api.Error "INVALID_MONTH" ("Invalid month name: " +:+ month) |},
     {| Api.db := w1; Api.queries := [Api.FindFirst id] |}).
Proof.
  intros [patch Hparse] Hbody Hmonth Hfind.
  assert (Hpatch : patch !! "arrival_date_month" = Some (JStr month)).
  { rewrite (parse_object_lookup _ _ _ _ Hparse).
    by rewrite (bool_decide_eq_true_2 _ month_in_patch_schema). }
  unfold Api.patch_booking, Api.query. cbn [Api.db Api.queries app].
  rewrite Hparse, Hfind.
  unfold Api.patched_arrival_date. rewrite Hpatch. cbn [Api.nullish_or string_of].
  rewrite (bool_decide_eq_true_2 (is_Some (Some (JStr month)))) by eauto.
  rewrite orb_true_r. cbn [orb].
  by rewrite unresolved_month_raises.
Qed.

Lemma error_middleware_refuses (failure : Failure) :
  (400 ≤ Api.status (Api.error_middleware failure))%nat
  ∧ Api.status (Api.error_middleware failure) ≠ 401%nat
  ∧ ∃ code message, Api.envelope (Api.error_middleware failure) = Api.Error code message.
Proof.
  destruct failure as [| [message |]]; cbn; [split_and!; eauto; lia | | split_and!; eauto; lia].
  destruct (String.prefix _ _); cbn; split_and!; eauto; lia.
Qed.

(** Every reply of a handler is a booking with 200 or 201, or an error
    with a status from 400 on that is not 401. *)
Lemma handle_reply (r : Api.Route) (st : Api.ServerState W) :
  let reply := (Api.handle prisma r st).1 in
  match Api.envelope reply with
  | Api.Data _ => Api.status reply = 200%nat ∨ Api.status reply = 201%nat
  | Api.Error _ _ => (400 ≤ Api.status reply)%nat ∧ Api.status reply ≠ 401%nat
  end.
Proof.
  cbv zeta. run_handler.
  destruct r as [body | id | id body | id].
  all: repeat match goal with
         | |- context [match ?x with _ => _ end] =>
             lazymatch x with
             | Api.envelope _ => fail
             | _ => destruct x
             end
         end.
  all: cbn [fst snd];
    try (match goal with
         | |- context [Api.error_middleware ?f] =>
             destruct (error_middleware_refuses f) as (Hge & Hne & code & message & ->);
             by split
         end).
  all: cbn; first [by left | by right | split; [lia | done]].
Qed.

(** X16. The key guard refuses exactly the requests that it should, and
    before anything else happens: a reply has status 401 if and only if a
    non-empty key is configured and the header of the request is not that
    key, and then no query has been sent and the store is as it was. With
    no key configured, or an empty one, every request reaches its
    handler. *)
Theorem guard_refuses_before_any_query (apiKey : option string)
    (request : Api.Request) (w : W) :
  let served := Api.serve prisma apiKey request w in
  let refused :=
    ∃ key, apiKey = Some key ∧ key ≠ "" ∧ Api.x_api_key request ≠ Some key in
  (Api.status served.1 = 401%nat ↔ refused)
  ∧ (refused →
     served = ({| Api.status := 401;
                  Api.envelope := Api.Error "UNAUTHORIZED" "Invalid API key" |},
               {| Api.db := w; Api.queries := [] |}))
  ∧ (¬ refused →
     served = Api.handle prisma (Api.route request) {| Api.db := w; Api.queries := [] |}).
Proof.
  cbv zeta. unfold Api.serve, Api.app.
  destruct (Api.apiKeyGuard apiKey (Api.x_api_key request)) as [refusal |] eqn:Hguard.
  - assert (Hrefused : ∃ key, apiKey = Some key ∧ key ≠ ""
                         ∧ Api.x_api_key request ≠ Some key
                         ∧ refusal = {| Api.status := 401;
                                        Api.envelope :=
                                          Api.Error "UNAUTHORIZED" "Invalid API key" |}).
    { unfold Api.apiKeyGuard in Hguard.
      destruct apiKey as [[| c key] |]; try done.
      case_bool_decide as Hheader; [done |]. injection Hguard as <-.
      exists (String c key). by split_and!. }
    destruct Hrefused as (key & -> & Hkey & Hheader & ->).
    split_and!; [split; eauto | done |].
    intros Hnot. destruct Hnot. eauto.
  - assert (Hnot : ¬ ∃ key, apiKey = Some key ∧ key ≠ ""
                     ∧ Api.x_api_key request ≠ Some key).
    { intros (key & -> & Hkey & Hheader). unfold Api.apiKeyGuard in Hguard.
      destruct key as [| c key]; [done |].
      by rewrite (bool_decide_eq_false_2 _ Hheader) in Hguard. }
    split_and!; [| by intros ? | done].
    split; [| by intros ?].
    intros Hstatus. exfalso.
    pose proof (handle_reply (Api.route request) {| Api.db := w; Api.queries := [] |})
      as Hreply.
    cbv zeta in Hreply.
    destruct (Api.envelope _); [| by destruct Hreply].
    destruct Hreply as [Hr | Hr]; rewrite Hr in Hstatus; discriminate Hstatus.
Qed.

(** X17. The record-store client reads every reply of the API as it is
    meant: a data envelope resolves to its booking, and an error
    envelope is thrown as an error with the message of the envelope.
    The client never resolves to [undefined] and never falls back on the
    message "API error", whatever the request and the store. *)
Theorem client_reads_every_api_reply (apiKey : option string) (request : Api.Request)
    (w : W) :
  let response := (Api.serve prisma apiKey request w).1 in
  Client.data response
  = match Api.envelope response with
    | Api.Data booking => inr (Some booking)
    | Api.Error _ message => inl (JsError message)
    end.
Proof.
  cbv zeta. unfold Api.serve, Api.app.
  destruct (Api.apiKeyGuard apiKey (Api.x_api_key request)) as [refusal |] eqn:Hguard.
  { unfold Api.apiKeyGuard in Hguard.
    destruct apiKey as [[| c key] |]; try done.
    case_bool_decide; [done |]. by injection Hguard as <-. }
  pose proof (handle_reply (Api.route request) {| Api.db := w; Api.queries := [] |})
    as Hreply.
  cbv zeta in Hreply. unfold Client.data, Client.requestJson, Client.ok.
  destruct (Api.envelope _) as [booking | code message].
  - by destruct Hreply as [-> | ->].
  - destruct Hreply as [Hge Hne].
    destruct (200 <=? _)%nat eqn:Hlow; [| done].
    destruct (_ <=? 299)%nat eqn:Hhigh; [| done].
    apply Nat.leb_le in Hhigh. lia.
Qed.


End ApiProperties.

(** The names of the months in the chat route are the keys of the month
    table of the API, in the order of their indices. *)
Lemma monthMap_lookup (name : string) (index : nat) :
  monthMap !! name = Some index ↔ MONTH_NAMES !! index = Some name.
Proof.
  split.
  - intros Hin. apply elem_of_list_to_map_2 in Hin.
    repeat (apply elem_of_cons in Hin as [[= -> ->] | Hin]; [reflexivity |]).
    by apply elem_of_nil in Hin.
  - intros Hin.
    do 12 (destruct index as [| index]; [injection Hin as <-; by vm_compute |]).
    done.
Qed.


Lemma updates_follow_a_lookup_witness :
  ∃ id existing w1,
    (Api.route {| Api.x_api_key := None; Api.route := Api.DeleteBooking "bk_7" |}
     = Api.DeleteBooking id
     ∨ ∃ body,
         Api.route {| Api.x_api_key := None; Api.route := Api.DeleteBooking "bk_7" |}
         = Api.PatchBooking id body)
    ∧ Api.findFirst (holding [Scenarios.persisted_draft]) id () = (inr (Some existing), w1)
    ∧ "bk_7" = string_of (existing !! "id")
    ∧ Api.queries
        (Api.serve (holding [Scenarios.persisted_draft]) None
           {| Api.x_api_key := None; Api.route := Api.DeleteBooking "bk_7" |} ()).2
      = [Api.FindFirst id; Api.Update "bk_7" Api.SoftDelete].
Proof.
  refine (updates_follow_a_lookup (holding [Scenarios.persisted_draft]) None
            {| Api.x_api_key := None; Api.route := Api.DeleteBooking "bk_7" |} ()
            "bk_7" Api.SoftDelete _).
  assert (Hsent :
    Api.queries
      (Api.serve (holding [Scenarios.persisted_draft]) None
         {| Api.x_api_key := None; Api.route := Api.DeleteBooking "bk_7" |} ()).2
    = [Api.FindFirst "bk_7"; Api.Update "bk_7" Api.SoftDelete]).
  { vm_compute. reflexivity. }
  rewrite Hsent. apply list_elem_of_further, list_elem_of_here.
Defined.

Lemma missing_booking_is_not_found_witness :
  Api.get_booking (holding []) "bk_404" {| Api.db := (); Api.queries := [] |}
  = ({| Api.status := 404; Api.envelope := Api.Error "NOT_FOUND" "Booking not found" |},
     {| Api.db := (); Api.queries := [Api.FindFirst "bk_404"] |}).
Proof.
  pose proof (missing_booking_is_not_found (holding []) "bk_404" () () eq_refl) as Hall.
  cbv zeta in Hall. exact (proj1 Hall).
Defined.


Lemma patch_with_unknown_month_is_refused_witness :
  Api.patch_booking (holding [{[ "id" := JStr "bk_7" ]}]) "bk_7"
    {[ "arrival_date_month" := JStr "Augst" ]} {| Api.db := (); Api.queries := [] |}
  = ({| Api.status := 400;
        Api.envelope := Api.Error "INVALID_MONTH" ("Invalid month name: " +:+ "Augst") |},
     {| Api.db := (); Api.queries := [Api.FindFirst "bk_7"] |}).
Proof.
  apply (patch_with_unknown_month_is_refused (holding [{[ "id" := JStr "bk_7" ]}])
           "bk_7" "Augst" {[ "arrival_date_month" := JStr "Augst" ]}
           {[ "id" := JStr "bk_7" ]} () ()).
  - apply (bool_decide_eq_true_1 _). vm_compute. reflexivity.
  - vm_compute. reflexivity.
  - vm_compute. reflexivity.
  - vm_compute. reflexivity.
Defined.

(** ** The MCP server *)

Section McpProperties.
Context {W : Type} (io : Collaborators W).
Context (ZodError_message : string → option Draft → string).

Lemma record_of_Some (value : option JValue) (fields : Draft) :
  Mcp.record_of value = Some fields → value = Some (JObj fields).
Proof. destruct value as [[] |]; cbn; congruence. Qed.

Lemma text_of_Some (value : option JValue) (s : string) :
  Mcp.text_of value = Some s → value = Some (JStr s).
Proof. destruct value as [[] |]; cbn; congruence. Qed.

(** The handler, by cases: the call that the tool and its arguments
    stand for, if any, and the error text otherwise. *)
Lemma call_tool_run (name : string) (arguments : option Draft) (st : TurnState W) :
  (∃ text,
     Mcp.call_tool io ZodError_message name arguments st
     = (Returned (Mcp.IsError text), st)
     ∧ (name ∉ ["create_booking"; "update_booking"; "get_booking"] →
        text = "Unknown tool: " +:+ name))
  ∨ (∃ c args,
       arguments = Some args
       ∧ proposed_call {| id := ""; function_name := name;
                          function_arguments := ArgumentsObject args |} args = Some c
       ∧ Mcp.tool_of c = name
       ∧ Mcp.call_tool io ZodError_message name arguments st
         = (Returned match (store_answer io c (world st)).1 with
                     | inr booking => Mcp.Content booking
                     | inl e => Mcp.IsError (error_message e)
                     end,
            {| world := (store_answer io c (world st)).2;
               issued := issued st ++ [c] |})).
Proof.
  unfold Mcp.call_tool, Mcp.parse, proposed_call. cbn [function_name].
  destruct (String.eqb name "create_booking") eqn:Hcreate.
  { apply String.eqb_eq in Hcreate as ->.
    destruct (Mcp.createBookingSchema arguments) as [payload |] eqn:Hschema.
    - right. unfold Mcp.createBookingSchema in Hschema.
      destruct arguments as [args |]; [| done]. cbn in Hschema.
      apply record_of_Some in Hschema.
      exists (CreateBooking (Some (JObj payload))), args.
      rewrite Hschema. split_and!; try reflexivity.
      run_turn. cbn [store_answer world issued].
      by destruct (createBooking io _ _) as [[e | booking] w'].
    - left. eexists. split; [reflexivity |].
      intros Hnot. destruct Hnot. apply list_elem_of_here. }
  destruct (String.eqb name "update_booking") eqn:Hupdate.
  { apply String.eqb_eq in Hupdate as ->.
    destruct (Mcp.updateBookingSchema arguments) as [[target patch] |] eqn:Hschema.
    - right. unfold Mcp.updateBookingSchema in Hschema.
      destruct arguments as [args |]; [| done]. cbn in Hschema.
      destruct (Mcp.text_of (args !! "id")) as [target' |] eqn:Hid; [| done].
      destruct (Mcp.record_of (args !! "patch")) as [patch' |] eqn:Hpatch; [| done].
      cbn in Hschema. injection Hschema as -> ->.
      apply text_of_Some in Hid. apply record_of_Some in Hpatch.
      exists (UpdateBooking (Some (JStr target)) (Some (JObj patch))), args.
      rewrite Hid, Hpatch. split_and!; try reflexivity.
      run_turn. cbn [store_answer world issued fst snd].
      by destruct (updateBooking io _ _ _) as [[e | booking] w'].
    - left. eexists. split; [reflexivity |].
      intros Hnot. destruct Hnot. apply list_elem_of_further, list_elem_of_here. }
  destruct (String.eqb name "get_booking") eqn:Hget.
  { apply String.eqb_eq in Hget as ->.
    destruct (Mcp.getBookingSchema arguments) as [target |] eqn:Hschema.
    - right. unfold Mcp.getBookingSchema in Hschema.
      destruct arguments as [args |]; [| done]. cbn in Hschema.
      apply text_of_Some in Hschema.
      exists (GetBooking (Some (JStr target))), args.
      rewrite Hschema. split_and!; try reflexivity.
      run_turn. cbn [store_answer world issued].
      by destruct (getBooking io _ _) as [[e | booking] w'].
    - left. eexists. split; [reflexivity |].
      intros Hnot. destruct Hnot.
      apply list_elem_of_further, list_elem_of_further, list_elem_of_here. }
  left. eexists. split; reflexivity.
Qed.

(** X20. A tool call of the MCP server always resolves: whatever the
    tool, the arguments and the record store, the handler returns a
    result and lets nothing escape. Either it has called nothing and
    returns an error result (for an unknown tool, the text "Unknown tool:"
    with the name), or it has issued exactly one call of the record
    store, the one of the tool, and returns the booking of that call or
    the message of its failure. *)
Theorem tool_call_always_resolves (name : string) (arguments : option Draft)
    (st : TurnState W) :
  let after := Mcp.call_tool io ZodError_message name arguments st in
  ∃ result,
    after.1 = Returned result
    ∧ ((after.2 = st ∧ ∃ text, result = Mcp.IsError text)
       ∨ ∃ c,
           Mcp.tool_of c = name
           ∧ after.2 = {| world := (store_answer io c (world st)).2;
                          issued := issued st ++ [c] |}
           ∧ result = match (store_answer io c (world st)).1 with
                      | inr booking => Mcp.Content booking
                      | inl e => Mcp.IsError (error_message e)
                      end)
    ∧ (name ∉ ["create_booking"; "update_booking"; "get_booking"] →
       after = (Returned (Mcp.IsError ("Unknown tool: " +:+ name)), st)).
Proof.
  cbv zeta.
  destruct (call_tool_run name arguments st)
    as [(text & -> & Hunknown) | (c & args & -> & Hcall & Htool & ->)].
  - eexists. split_and!; [reflexivity | left; eauto |].
    intros Hnot. by rewrite (Hunknown Hnot).
  - eexists. split_and!; [reflexivity | right; eauto |].
    intros Hnot. destruct Hnot. rewrite <- Htool.
    destruct c; cbn; [apply list_elem_of_here
                     | apply list_elem_of_further, list_elem_of_here
                     | apply list_elem_of_further, list_elem_of_further,
                         list_elem_of_here].
Qed.

(** X21. The MCP server and the chat route reach the record store in the
    same way: when the server issues a call for a tool and its
    arguments, the dispatch of the chat route issues the same call for
    them and leaves the same state. *)
Theorem server_and_route_issue_the_same_call (toolCall : ToolCall) (args : Draft)
    (st : TurnState W) (c : StoreCall) :
  issued (Mcp.call_tool io ZodError_message (function_name toolCall) (Some args) st).2
  = issued st ++ [c] →
  proposed_call toolCall args = Some c
  ∧ (dispatch io toolCall args st).2
    = (Mcp.call_tool io ZodError_message (function_name toolCall) (Some args) st).2.
Proof.
  intros Hissued. rewrite dispatch_run.
  assert (Hsame : ∀ name' : string,
            proposed_call {| id := name'; function_name := function_name toolCall;
                             function_arguments := ArgumentsObject args |} args
            = proposed_call toolCall args) by reflexivity.
  destruct (call_tool_run (function_name toolCall) (Some args) st)
    as [(text & Hrun & _) | (c' & args' & [= <-] & Hcall & _ & Hrun)];
    rewrite Hrun in Hissued |- *; cbn [snd issued] in Hissued.
  - exfalso. apply (f_equal length) in Hissued.
    rewrite length_app in Hissued. cbn in Hissued. lia.
  - apply app_inv_head in Hissued as [= ->].
    rewrite Hsame in Hcall. rewrite Hcall. split; [reflexivity |].
    by destruct (store_answer io c (world st)) as [[e | booking] w'].
Qed.

End McpProperties.

Lemma server_and_route_issue_the_same_call_witness :
  proposed_call
    {| id := "call_1"; function_name := "get_booking";
       function_arguments := ArgumentsObject {[ "id" := JStr "bk_7" ]} |}
    {[ "id" := JStr "bk_7" ]}
  = Some (GetBooking (Some (JStr "bk_7")))
  ∧ (dispatch Scenarios.quiet
       {| id := "call_1"; function_name := "get_booking";
          function_arguments := ArgumentsObject {[ "id" := JStr "bk_7" ]} |}
       {[ "id" := JStr "bk_7" ]} {| world := (); issued := [] |}).2
    = (Mcp.call_tool Scenarios.quiet (fun _ _ => "invalid input")
         (function_name
            {| id := "call_1"; function_name := "get_booking";
               function_arguments := ArgumentsObject {[ "id" := JStr "bk_7" ]} |})
         (Some {[ "id" := JStr "bk_7" ]}) {| world := (); issued := [] |}).2.
Proof.
  refine (server_and_route_issue_the_same_call Scenarios.quiet
            (fun _ _ => "invalid input")
            {| id := "call_1"; function_name := "get_booking";
               function_arguments := ArgumentsObject {[ "id" := JStr "bk_7" ]} |}
            {[ "id" := JStr "bk_7" ]} {| world := (); issued := [] |}
            (GetBooking (Some (JStr "bk_7"))) _).
  vm_compute. reflexivity.
Defined.

(** ** The earlier chat route *)

Section EarlierProperties.
Context {W : Type} (io : Collaborators W) `{JsRuntime}.




End EarlierProperties.


(** ** What escapes a turn, and what the page shows after it *)

Section EscapeProperties.
Context {W : Type} (io : Collaborators W) `{JsRuntime}.




(** X24. After a confirmed booking the page still asks for a
    confirmation. The page shows its notice "Awaiting confirmation"
    when the last message contains "confirm", and it appends the message
    of the reply to the history: after an authorized turn the notice is
    shown exactly when the mutation has succeeded, since the reply is
    then "Your booking has been confirmed.", and it is not shown when
    the mutation has failed. *)
Theorem notice_follows_a_confirmed_booking (body : RequestBody) (st : TurnState W) :
  authorized body = true →
  ∃ booking reply st',
    body_booking body = Some booking
    ∧ POST io body st = (Returned reply, st')
    ∧ ∀ history,
        Page.confirmationReady (history ++ [Page.reply_message reply])
        = match (store_answer io (mutation_for booking) (world st)).1 with
          | inr _ => true
          | inl _ => false
          end.
Proof.
  intros Hauth. destruct (authorized_inv body Hauth) as (_ & _ & booking & Hb).
  exists booking. rewrite (POST_authorized io body booking Hauth Hb), finalize_run.
  destruct (store_answer io (mutation_for booking) _) as [[e | stored] w'];
    eexists _, _; (split_and!; [exact Hb | reflexivity |]);
    intros history; unfold Page.confirmationReady, Page.reply_message;
    rewrite last_snoc_message; cbn [content message fst]; by vm_compute.
Qed.

End EscapeProperties.


Lemma notice_follows_a_confirmed_booking_witness :
  ∃ booking reply st',
    body_booking Scenarios.confirmation = Some booking
    ∧ POST Scenarios.quiet Scenarios.confirmation {| world := (); issued := [] |}
      = (Returned reply, st')
    ∧ ∀ history,
        Page.confirmationReady (history ++ [Page.reply_message reply])
        = match (store_answer Scenarios.quiet (mutation_for booking)
                   (world {| world := (); issued := [] |})).1 with
          | inr _ => true
          | inl _ => false
          end.
Proof.
  refine (notice_follows_a_confirmed_booking Scenarios.quiet Scenarios.confirmation
            {| world := (); issued := [] |} _).
  vm_compute. reflexivity.
Defined.

(** ** The bookings that the API writes, read by the chat route *)

Lemma digit_is_not_white_space (c : ascii) :
  is_digit c = true → is_white_space c = false.
Proof.
  unfold is_digit, is_white_space. cbv zeta.
  intros [Hlow Hhigh]%andb_true_iff.
  apply Nat.leb_le in Hlow, Hhigh.
  apply orb_false_iff; split; [apply orb_false_iff; split |].
  - apply andb_false_iff. right. apply Nat.leb_gt. lia.
  - apply Nat.eqb_neq. lia.
  - apply Nat.eqb_neq. lia.
Qed.

Lemma date_is_not_blank (s : string) :
  matches_date_pattern s = true → String.eqb (trim s) "" = false.
Proof.
  intros Hdate. apply String.eqb_neq. rewrite trim_empty. unfold blank.
  unfold matches_date_pattern in Hdate.
  destruct (list_ascii_of_string s) as [| y1 rest]; [done |].
  intros Hall. apply Forall_cons in Hall as [Hwhite _].
  do 9 (destruct rest as [| ? rest]; [done |]).
  destruct rest; [| done].
  rewrite !andb_true_iff in Hdate.
  destruct Hdate as [[[[[[[[[Hy1 _] _] _] _] _] _] _] _] _].
  apply digit_is_not_white_space in Hy1. congruence.
Qed.

Lemma enum_accepted (options : list string) (value : option JValue) :
  Zod.accepts (Zod.enum options) value = true →
  ∃ s, value = Some (JStr s) ∧ s ∈ options.
Proof.
  destruct value as [[| | | s | |] |]; cbn; try discriminate.
  intros Hin%bool_decide_eq_true_1. eauto.
Qed.

Lemma number_accepted (checks : list Zod.NumberCheck) (value : option JValue) :
  Zod.accepts (Zod.number checks) value = true → ∃ n, value = Some (JNum n).
Proof. destruct value as [[| | n | | |] |]; cbn; try discriminate. eauto. Qed.

Lemma boolean_accepted (value : option JValue) :
  Zod.accepts Zod.boolean value = true → ∃ b, value = Some (JBool b).
Proof. destruct value as [[| b | | | |] |]; cbn; try discriminate. eauto. Qed.

Lemma string_accepted (checks : list Zod.StringCheck) (value : option JValue) :
  Zod.accepts (Zod.string_ checks) value = true →
  ∃ s, value = Some (JStr s) ∧ forallb (Zod.string_check s) checks = true.
Proof. destruct value as [[| | | s | |] |]; cbn; try discriminate. eauto. Qed.

Lemma created_field (body payload : Draft) (field : string) (schema : Zod.Schema) :
  Zod.parse_object bookingCreateSchema body = Some payload →
  (field, schema) ∈ bookingCreateSchema →
  field ≠ "agent" → field ≠ "company" →
  (<["agent" := default JNull (payload !! "agent")]>
     (<["company" := default JNull (payload !! "company")]> payload)) !! field
  = body !! field
  ∧ payload !! field = body !! field
  ∧ Zod.accepts schema (body !! field) = true.
Proof.
  intros Hparse Hin Hagent Hcompany.
  rewrite !lookup_insert_ne by done.
  rewrite (parse_object_lookup _ _ _ _ Hparse).
  rewrite bool_decide_eq_true_2.
  - split_and!; [done.. |]. by eapply parse_object_accepts.
  - apply list_elem_of_fmap. by exists (field, schema).
Qed.

Ltac schema_entry :=
  unfold bookingCreateSchema, bookingBaseSchema;
  repeat first [apply list_elem_of_here | apply list_elem_of_further].

Ltac closed_false H :=
  exfalso; vm_compute in H; discriminate H.

Section CreatedProperties.
Context {W : Type} (prisma : Api.Prisma W).

Lemma create_query_inv (apiKey : option string) (request : Api.Request) (w : W)
    (data : CreateData) :
  Api.Create data ∈ Api.queries (Api.serve prisma apiKey request w).2 →
  ∃ body payload date,
    Zod.parse_object bookingCreateSchema body = Some payload
    ∧ computeArrivalDate (number_of (payload !! "arrival_date_year"))
        (string_of (payload !! "arrival_date_month"))
        (number_of (payload !! "arrival_date_day_of_month")) = inr date
    ∧ data_fields data
      = <["agent" := default JNull (payload !! "agent")]>
          (<["company" := default JNull (payload !! "company")]> payload).
Proof.
  destruct request as [header r].
  unfold Api.serve, Api.app, Api.handle, Api.post_booking, Api.get_booking,
    Api.patch_booking, Api.delete_booking, Api.query;
  cbn [Api.db Api.queries Api.route Api.x_api_key].
  destruct (Api.apiKeyGuard apiKey header) as [refusal |].
  { intros Hin. by apply elem_of_nil in Hin. }
  destruct r as [body | id | id body | id]; cbn [fst snd Api.db Api.queries app].
  - destruct (Zod.parse_object bookingCreateSchema body) as [payload |] eqn:Hparse;
      [| intros Hin; by apply elem_of_nil in Hin].
    destruct (computeArrivalDate _ _ _) as [e | date] eqn:Hdate;
      [intros Hin; by apply elem_of_nil in Hin |].
    destruct (Api.create prisma _ _) as [[e | booking] w1];
      cbn [Api.queries]; intros Hin;
      (apply elem_of_cons in Hin as [[= ->] | Hin]; [| by apply elem_of_nil in Hin]);
      exists body, payload, date; by split_and!.
  - destruct (Api.findFirst prisma id _) as [[e | [existing |]] w1];
      intros Hin; repeat (apply elem_of_cons in Hin as [[=] | Hin]);
      by apply elem_of_nil in Hin.
  - destruct (Zod.parse_object Api.bookingPatchSchema body) as [patch |];
      [| intros Hin; by apply elem_of_nil in Hin].
    destruct (Api.findFirst prisma id w) as [[e | [existing |]] w1];
      [intros Hin; repeat (apply elem_of_cons in Hin as [[=] | Hin]);
         by apply elem_of_nil in Hin
      | | intros Hin; repeat (apply elem_of_cons in Hin as [[=] | Hin]);
            by apply elem_of_nil in Hin].
    destruct (Api.patched_arrival_date patch existing) as [e | date];
      [intros Hin; repeat (apply elem_of_cons in Hin as [[=] | Hin]);
         by apply elem_of_nil in Hin |].
    destruct (Api.update prisma _ _ _) as [[e | booking] w2];
      cbn [Api.queries app]; intros Hin;
      repeat (apply elem_of_cons in Hin as [[=] | Hin]); by apply elem_of_nil in Hin.
  - destruct (Api.findFirst prisma id w) as [[e | [existing |]] w1];
      [intros Hin; repeat (apply elem_of_cons in Hin as [[=] | Hin]);
         by apply elem_of_nil in Hin
      | | intros Hin; repeat (apply elem_of_cons in Hin as [[=] | Hin]);
            by apply elem_of_nil in Hin].
    destruct (Api.update prisma _ _ _) as [[e | booking] w2];
      cbn [Api.queries app]; intros Hin;
      repeat (apply elem_of_cons in Hin as [[=] | Hin]); by apply elem_of_nil in Hin.
Qed.

(** X25. What the create route sends to the persistence layer is
    complete for the chat route, but for three values that the schema
    accepts and the completeness check of the route does not: the empty
    meal, a country of two or three blanks, and a month that is the name
    of a property that every object inherits, which [computeArrivalDate]
    does not refuse. No other required field of a written booking is
    ever reported missing. *)
Theorem written_booking_misses_blanks_only (apiKey : option string)
    (request : Api.Request) (w : W) (data : CreateData) (field : string) :
  Api.Create data ∈ Api.queries (Api.serve prisma apiKey request w).2 →
  field ∈ getMissingFields (Some (data_fields data)) →
  (field = "meal" ∧ data_fields data !! "meal" = Some (JStr ""))
  ∨ (field = "country"
     ∧ ∃ s, data_fields data !! "country" = Some (JStr s) ∧ blank s)
  ∨ (field = "arrival_date_month"
     ∧ ∃ month,
         data_fields data !! "arrival_date_month" = Some (JStr month)
         ∧ Array_includes ("__proto__" :: Object_prototype_functions)
             (toLowerCase (trim month)) = true).
Proof.
  intros (body & payload & date & Hparse & Hdate & ->)%create_query_inv Hin.
  rewrite getMissingFields_Some in Hin.
  apply list_elem_of_In, List.filter_In in Hin as [Hreq Hmiss].
  rewrite field_is_missing_cases in Hmiss.
  unfold REQUIRED_FIELDS in Hreq. cbn [In] in Hreq.
  repeat (destruct Hreq as [<- | Hreq]); [.. | done].
  all: match goal with
       | H : context [_ !! ?f] |- _ =>
           destruct (created_field body payload f _ Hparse ltac:(schema_entry)
                       ltac:(discriminate) ltac:(discriminate))
             as (Hlook & Hpayload & Hacc)
       end.
  all: rewrite Hlook in Hmiss.
  all: try (apply number_accepted in Hacc as (n & Hv); rewrite Hv in Hmiss;
            closed_false Hmiss).
  all: try (apply boolean_accepted in Hacc as (b & Hv); rewrite Hv in Hmiss;
            closed_false Hmiss).
  all: try (apply enum_accepted in Hacc as (s & Hv & Hs); rewrite Hv in Hmiss;
            repeat (apply elem_of_cons in Hs as [-> | Hs]);
            [.. | by apply elem_of_nil in Hs];
            try closed_false Hmiss).
  all: try (apply string_accepted in Hacc as (s & Hv & Hchecks); rewrite Hv in Hmiss).
  - (* the month: resolved by [computeArrivalDate], so a name of a month
       or an inherited property *)
    rewrite Hpayload, Hv in Hdate. cbn [string_of] in Hdate.
    unfold computeArrivalDate in Hdate.
    destruct (monthMap !! toLowerCase (trim s)) as [index |] eqn:Hindex.
    + exfalso. pose proof Hindex as Hname. apply monthMap_lookup in Hname.
      apply list_elem_of_lookup_2, (bool_decide_eq_true_2 _) in Hname.
      change (bool_decide (toLowerCase (trim s) ∈ MONTH_NAMES))
        with (Array_includes MONTH_NAMES (toLowerCase (trim s))) in Hname.
      rewrite Hname in Hmiss.
      destruct (String.eqb (trim s) "") eqn:Hblank.
      * apply String.eqb_eq in Hblank. rewrite Hblank in Hindex.
        vm_compute in Hindex. discriminate Hindex.
      * closed_false Hmiss.
    + destruct (Array_includes ("__proto__" :: Object_prototype_functions) _)
        eqn:Hinherited; [| discriminate Hdate].
      right; right. split; [reflexivity |]. exists s. by rewrite Hlook.
  - (* the meal: the empty option of the enumeration *)
    left. split; [reflexivity |]. by rewrite Hlook.
  - (* the country: two or three blanks *)
    right; left. split; [reflexivity |]. exists s. rewrite Hlook. split; [exact Hv |].
    apply trim_empty, String.eqb_eq.
    destruct (String.eqb (trim s) ""); [reflexivity | closed_false Hmiss].
  - (* the date of the status: it starts with a digit *)
    cbn [forallb Zod.string_check] in Hchecks. rewrite andb_true_r in Hchecks.
    rewrite (date_is_not_blank s Hchecks) in Hmiss. closed_false Hmiss.
Qed.

End CreatedProperties.

Lemma create_is_sent {W} (prisma : Api.Prisma W) (body payload : Draft)
    (date : ArrivalDate) (w : W) :
  Zod.parse_object bookingCreateSchema body = Some payload →
  computeArrivalDate (number_of (payload !! "arrival_date_year"))
    (string_of (payload !! "arrival_date_month"))
    (number_of (payload !! "arrival_date_day_of_month")) = inr date →
  Api.Create
    {| data_fields :=
         <["agent" := default JNull (payload !! "agent")]>
           (<["company" := default JNull (payload !! "company")]> payload);
       data_arrival_date := date |}
  ∈ Api.queries
      (Api.serve prisma None {| Api.x_api_key := None; Api.route := Api.PostBookings body |}
         w).2.
Proof.
  intros Hparse Hdate.
  unfold Api.serve, Api.app, Api.handle, Api.post_booking, Api.query.
  cbn [Api.apiKeyGuard Api.route Api.x_api_key Api.db Api.queries app].
  rewrite Hparse, Hdate.
  destruct (Api.create prisma _ w) as [[e | booking] w1]; apply list_elem_of_here.
Qed.

Lemma written_booking_misses_blanks_only_witness :
  ("arrival_date_month" = "meal"
   ∧ data_fields inherited_month_data !! "meal" = Some (JStr ""))
  ∨ ("arrival_date_month" = "country"
     ∧ ∃ s, data_fields inherited_month_data !! "country" = Some (JStr s) ∧ blank s)
  ∨ ("arrival_date_month" = "arrival_date_month"
     ∧ ∃ month,
         data_fields inherited_month_data !! "arrival_date_month" = Some (JStr month)
         ∧ Array_includes ("__proto__" :: Object_prototype_functions)
             (toLowerCase (trim month)) = true).
Proof.
  refine (written_booking_misses_blanks_only (holding []) None
            {| Api.x_api_key := None; Api.route := Api.PostBookings inherited_month_body |}
            () inherited_month_data "arrival_date_month" _ _).
  - apply (create_is_sent (holding []) inherited_month_body).
    + assert (Hsome : is_Some (Zod.parse_object bookingCreateSchema inherited_month_body)).
      { apply (bool_decide_eq_true_1 _). vm_compute. reflexivity. }
      destruct Hsome as [payload Hpayload]. by rewrite Hpayload.
    + vm_compute. reflexivity.
  - apply (bool_decide_eq_true_1 _). vm_compute. reflexivity.
Defined.

(** ** The tools that the MCP server lists *)

Section McpToolsProperties.
Context {W : Type} (io : Collaborators W).
Context (ZodError_message : string → option Draft → string).

Lemma no_call_issued (st : TurnState W) (c : StoreCall) :
  issued st ≠ issued st ++ [c].
Proof.
  intros Heq. apply (f_equal length) in Heq.
  rewrite length_app in Heq. cbn in Heq. lia.
Qed.

(** X26. The server serves what it lists: for each of the tools of the
    list, the handler issues a call of the record store, the one of the
    tool, exactly when the arguments meet the input schema that the list
    gives for the tool; arguments that do not meet it reach no
    collaborator. *)
Theorem advertised_tools_are_served (tool : Mcp.Tool) (arguments : option Draft)
    (st : TurnState W) :
  tool ∈ Mcp.tools →
  Mcp.meets tool arguments = true
  ↔ ∃ c,
      Mcp.tool_of c = Mcp.tool_name tool
      ∧ issued (Mcp.call_tool io ZodError_message (Mcp.tool_name tool)
                  arguments st).2
        = issued st ++ [c].
Proof.
  intros Hin. unfold Mcp.tools in Hin.
  repeat (apply elem_of_cons in Hin as [-> | Hin]); [.. | by apply elem_of_nil in Hin].
  all: cbn [Mcp.tool_name]; unfold Mcp.call_tool, Mcp.parse, Mcp.meets;
    cbn [Mcp.required Mcp.properties forallb fst snd];
    repeat match goal with
      | |- context [String.eqb ?a ?b] =>
          let v := eval vm_compute in (String.eqb a b) in
          change (String.eqb a b) with v
      end;
    cbv iota.
  all: destruct arguments as [args |];
    [| cbn; split; [discriminate | intros (c & _ & Hc); by apply no_call_issued in Hc]].
  all: unfold Mcp.createBookingSchema, Mcp.updateBookingSchema, Mcp.getBookingSchema;
    cbn [mbind option_bind].
  - destruct (args !! "payload") as [[| b | n | s | items | fields] |];
      cbn; run_turn; cbn [snd issued];
      try (split; [discriminate | intros (c & _ & Hc); by apply no_call_issued in Hc]).
    destruct (createBooking io _ _) as [[e | booking] w']; cbn;
      (split; [intros _; eexists; split; [| reflexivity]; reflexivity | done]).
  - destruct (args !! "id") as [[| b | n | s | items | fields] |];
      destruct (args !! "patch") as [[| b' | n' | s' | items' | fields'] |];
      cbn; run_turn; cbn [snd issued];
      try (split; [discriminate | intros (c & _ & Hc); by apply no_call_issued in Hc]).
    destruct (updateBooking io _ _ _) as [[e | booking] w']; cbn;
      (split; [intros _; eexists; split; [| reflexivity]; reflexivity | done]).
  - destruct (args !! "id") as [[| b | n | s | items | fields] |];
      cbn; run_turn; cbn [snd issued];
      try (split; [discriminate | intros (c & _ & Hc); by apply no_call_issued in Hc]).
    destruct (getBooking io _ _) as [[e | booking] w']; cbn;
      (split; [intros _; eexists; split; [| reflexivity]; reflexivity | done]).
Qed.

End McpToolsProperties.

Lemma advertised_tools_are_served_witness :
  Mcp.meets
    {| Mcp.tool_name := "get_booking";
       Mcp.properties := [("id", Mcp.TString)];
       Mcp.required := ["id"] |}
    (Some {[ "id" := JStr "bk_7" ]}) = true
  ↔ ∃ c,
      Mcp.tool_of c
      = Mcp.tool_name
          {| Mcp.tool_name := "get_booking";
             Mcp.properties := [("id", Mcp.TString)];
             Mcp.required := ["id"] |}
      ∧ issued
          (Mcp.call_tool Scenarios.quiet (fun _ _ => "invalid input")
             (Mcp.tool_name
                {| Mcp.tool_name := "get_booking";
                   Mcp.properties := [("id", Mcp.TString)];
                   Mcp.required := ["id"] |})
             (Some {[ "id" := JStr "bk_7" ]}) {| world := (); issued := [] |}).2
        = issued {| world := (); issued := [] |} ++ [c].
Proof.
  refine (advertised_tools_are_served Scenarios.quiet (fun _ _ => "invalid input")
            {| Mcp.tool_name := "get_booking";
               Mcp.properties := [("id", Mcp.TString)];
               Mcp.required := ["id"] |}
            (Some {[ "id" := JStr "bk_7" ]}) {| world := (); issued := [] |} _).
  apply list_elem_of_further, list_elem_of_further, list_elem_of_here.
Defined.
